(** * bluetooth-tooling: BLE scanner and connect/enumerate/disconnect pass

    A shallow embedding of [ble_scanner.py] and [disconnect_ble.py].

    The two scripts are asynchronous programs talking to a radio through
    the [bleak] library.  The embedding keeps the control flow of the
    source (try/except, early return, [async with], for loops, closures
    updating [nonlocal] variables) and replaces the radio by an explicit
    environment [Env] that says what each library call answers: whether
    the scanner starts, which advertisements arrive while the program
    sleeps, whether a connection is accepted, what the GATT tree looks
    like and where reading it fails.  Everything the program does that is
    visible from outside goes into a [state]: the lines printed on
    standard output and a trace of the radio operations performed. *)

From Stdlib Require Import ZArith List String Ascii Bool Lia.
From Stdlib Require Import DecimalString.
Import ListNotations.
Open Scope string_scope.
Open Scope Z_scope.

(* ================================================================== *)
(** ** Python values and control flow *)

Module Py.

(** [BaseException] hierarchy, as far as the scripts tell the classes
    apart: [except Exception] catches every [Exception] (bleak errors,
    timeouts, OS errors) and lets [KeyboardInterrupt] and [SystemExit]
    through. *)
Inductive exn : Type :=
| Exception (msg : string)
| KeyboardInterrupt
| SystemExit (code : Z).

Inductive outcome (A : Type) : Type :=
| Return (a : A)
| Raise (e : exn).
Arguments Return {A} a.
Arguments Raise {A} e.

(** Radio operations, in the order the program performs them. *)
Inductive event : Type :=
| ScannerStart
| Sleep (secs : Z)
| ScannerStop
| Discover
| ConnectAttempt (addr : string)
| Connected (addr : string)
| Disconnect (addr : string).

Record state : Type := mkState {
  stdout : list string;
  trace : list event
}.

Definition initial : state := {| stdout := []; trace := [] |}.

(** A computation reads and extends the state and either returns or
    raises. *)
Definition M (A : Type) : Type := state -> outcome A * state.

Definition ret {A} (a : A) : M A := fun st => (Return a, st).

Definition raise {A} (e : exn) : M A := fun st => (Raise e, st).

Definition bind {A B} (c : M A) (k : A -> M B) : M B :=
  fun st =>
    match c st with
    | (Return a, st') => k a st'
    | (Raise e, st') => (Raise e, st')
    end.

(** [print(s)]: one entry per call; the entry is the argument, without
    the newline that [print] adds. *)
Definition print (s : string) : M unit :=
  fun st => (Return tt, {| stdout := stdout st ++ [s]; trace := trace st |}).

Definition emit (e : event) : M unit :=
  fun st => (Return tt, {| stdout := stdout st; trace := trace st ++ [e] |}).

(** The trace so far, for the environment to answer from. *)
Definition history : M (list event) := fun st => (Return (trace st), st).

Definition lift {A} (o : outcome A) : M A :=
  match o with
  | Return a => ret a
  | Raise e => raise e
  end.

Definition check (o : option exn) : M unit :=
  match o with
  | None => ret tt
  | Some e => raise e
  end.

(** [try: body  except Exception as e: handler(str(e))] *)
Definition try_except_Exception {A} (body : M A) (handler : string -> M A)
  : M A :=
  fun st =>
    match body st with
    | (Raise (Exception msg), st') => handler msg st'
    | r => r
    end.

(** [try: body  finally: cleanup]; an exception raised by the cleanup
    replaces the pending one. *)
Definition try_finally {A} (body : M A) (cleanup : M unit) : M A :=
  fun st =>
    match body st with
    | (r, st') =>
        match cleanup st' with
        | (Return _, st'') => (r, st'')
        | (Raise e, st'') => (Raise e, st'')
        end
    end.

(** [for x in xs: body(x)] *)
Fixpoint for_each {A} (xs : list A) (body : A -> M unit) : M unit :=
  match xs with
  | [] => ret tt
  | x :: xs' => bind (body x) (fun _ => for_each xs' body)
  end.

(** *** Strings *)

Definition nl : string := String (ascii_of_nat 10) EmptyString.

(** [str(n)] for an [int]. *)
Definition str_of_int (n : Z) : string := NilZero.string_of_int (Z.to_int n).

(** [str(n)] for a length. *)
Definition str_of_len (n : nat) : string := str_of_int (Z.of_nat n).

Definition str_of_bool (b : bool) : string := if b then "True" else "False".

(** [c * n] for a one-character string [c]. *)
Fixpoint str_mul (c : string) (n : nat) : string :=
  match n with
  | O => ""
  | S n' => c ++ str_mul c n'
  end.

(** [sep.join(xs)] *)
Definition join (sep : string) (xs : list string) : string :=
  String.concat sep xs.

(** [repr] of a [str] and of a [list] of [str].  Identifiers handled by
    the scripts (UUIDs, property names) hold no quote, backslash or
    control character, for which [repr] is the string between single
    quotes. *)
Definition repr_str (s : string) : string := "'" ++ s ++ "'".

Definition repr_list (xs : list string) : string :=
  "[" ++ join ", " (map repr_str xs) ++ "]".

(** Strings of ASCII characters only, as device addresses are:
    hexadecimal digits separated by [:] or [-]. *)
Fixpoint is_ascii (s : string) : bool :=
  match s with
  | EmptyString => true
  | String c s' => Nat.ltb (nat_of_ascii c) 128 && is_ascii s'
  end.

(** [str.lower()] and [str.upper()] as they act on ASCII strings
    ([is_ascii]).  On other strings the functions of Python follow the
    Unicode case mappings (the upper case of the ligature U+FB00 is
    [FF], the lower case of the Kelvin sign U+212A is [k]), which
    [lower] and [upper] do not: what depends on case folding is stated
    for ASCII strings. *)
Definition ascii_lower (c : ascii) : ascii :=
  let n := nat_of_ascii c in
  if (Nat.leb 65 n && Nat.leb n 90)%bool then ascii_of_nat (n + 32) else c.

Definition ascii_upper (c : ascii) : ascii :=
  let n := nat_of_ascii c in
  if (Nat.leb 97 n && Nat.leb n 122)%bool then ascii_of_nat (n - 32) else c.

Fixpoint lower (s : string) : string :=
  match s with
  | EmptyString => EmptyString
  | String c s' => String (ascii_lower c) (lower s')
  end.

Fixpoint upper (s : string) : string :=
  match s with
  | EmptyString => EmptyString
  | String c s' => String (ascii_upper c) (upper s')
  end.

(** [bytes.hex()] *)
Definition hex_digit (n : N) : ascii :=
  if (n <? 10)%N then ascii_of_N (48 + n) else ascii_of_N (87 + n).

Definition hex_of_byte (b : Byte.byte) : string :=
  let n := Byte.to_N b in
  String (hex_digit (n / 16)%N) (String (hex_digit (n mod 16)%N) EmptyString).

Definition hex (bs : list Byte.byte) : string :=
  String.concat "" (map hex_of_byte bs).

(** [x or default] for an optional string: [None] and [''] are falsy. *)
Definition str_or (x : option string) (default : string) : string :=
  match x with
  | Some EmptyString | None => default
  | Some s => s
  end.

(** Truthiness of a [str]. *)
Definition truthy (s : string) : bool :=
  match s with
  | EmptyString => false
  | _ => true
  end.

(** *** Dictionaries

    A [dict] keeps its keys in insertion order; assigning to a key that
    is present replaces the value where it stands. *)
Section Dict.
Context {V : Type}.

Definition dict : Type := list (string * V).

Fixpoint dict_set (d : dict) (k : string) (v : V) : dict :=
  match d with
  | [] => [(k, v)]
  | (k', v') :: d' =>
      if String.eqb k' k then (k, v) :: d' else (k', v') :: dict_set d' k v
  end.

Fixpoint dict_get (d : dict) (k : string) : option V :=
  match d with
  | [] => None
  | (k', v') :: d' => if String.eqb k' k then Some v' else dict_get d' k
  end.

Definition keys (d : dict) : list string := map fst d.

(** [{k: v for k, v in d.items() if cond(v)}] *)
Definition dict_comprehension (cond : V -> bool) (d : dict) : dict :=
  fold_left
    (fun acc kv => if cond (snd kv) then dict_set acc (fst kv) (snd kv) else acc)
    d [].
End Dict.
Arguments dict V : clear implicits.

End Py.

Import Py.

Declare Scope py_scope.
Delimit Scope py_scope with py.
Notation "x <- c ;; k" := (bind c (fun x => k))
  (at level 61, c at next level, right associativity) : py_scope.
Notation "c ;; k" := (bind c (fun _ => k))
  (at level 61, right associativity) : py_scope.

(* ================================================================== *)
(** ** The bleak library, as the scripts use it *)

Module Bleak.

Record BLEDevice : Type := {
  dev_address : string;
  dev_name : option string;
  dev_details : string          (* [str(device.details)] *)
}.

Record AdvertisementData : Type := {
  rssi : Z;
  local_name : option string;
  tx_power : option Z;
  service_uuids : list string;
  manufacturer_data : list (Z * list Byte.byte);
  service_data : list (string * list Byte.byte)
}.

(** The GATT tree of a connected device.  Reading the children of a
    node is a library call and may raise. *)
Record BleakGATTDescriptor : Type := {
  desc_uuid : string;
  desc_description : string
}.

Record BleakGATTCharacteristic : Type := {
  char_uuid : string;
  char_description : string;
  char_properties : list string;
  char_descriptors : outcome (list BleakGATTDescriptor)
}.

Record BleakGATTService : Type := {
  svc_uuid : string;
  svc_description : string;
  svc_characteristics : outcome (list BleakGATTCharacteristic)
}.

Record BleakClient : Type := {
  is_connected : bool;
  services : outcome (list BleakGATTService);
  disconnect_raises : option exn
}.

(** What the radio does during one run of a script. *)
Record Env : Type := {
  (** [scanner.start()]: [Some e] when the radio is unavailable *)
  scanner_start_raises : option exn;
  (** advertisements delivered to the detection callback while the
      program sleeps, in arrival order *)
  advertisements : list (BLEDevice * AdvertisementData);
  (** the sleep is cut short, for instance by the operator *)
  sleep_raises : option exn;
  scanner_stop_raises : option exn;
  (** [BleakScanner.discover(timeout=5.0)] *)
  discover_result : outcome (list BLEDevice);
  (** [BleakClient(address).connect()], given what happened so far *)
  connect : list event -> string -> outcome BleakClient
}.

Definition scanner_start (env : Env) : M unit :=
  (check (scanner_start_raises env) ;; emit ScannerStart)%py.

Definition scanner_stop (env : Env) : M unit :=
  (check (scanner_stop_raises env) ;; emit ScannerStop)%py.

(** [await asyncio.sleep(secs)] while a scanner created with
    [BleakScanner(detection_callback)] is running: the callback is
    called on every advertisement and updates the variables of the
    enclosing function, here the value of type [S]. *)
Definition asyncio_sleep {S} (env : Env) (secs : Z)
    (detection_callback : BLEDevice -> AdvertisementData -> S -> S)
    (s0 : S) : M S :=
  (emit (Sleep secs) ;;
   check (sleep_raises env) ;;
   ret (fold_left (fun s ev => detection_callback (fst ev) (snd ev) s)
          (advertisements env) s0))%py.

Definition discover (env : Env) : M (list BLEDevice) :=
  (emit Discover ;; lift (discover_result env))%py.

(** [async with BleakClient(address) as client: body]: [__aenter__]
    connects, [__aexit__] disconnects however the body ends. *)
Definition async_with_BleakClient (env : Env) (address : string)
    (body : BleakClient -> M unit) : M unit :=
  (h <- history ;;
   emit (ConnectAttempt address) ;;
   client <- lift (connect env h address) ;;
   emit (Connected address) ;;
   try_finally (body client)
     (emit (Disconnect address) ;; check (disconnect_raises client)))%py.

End Bleak.

Import Bleak.

(* ================================================================== *)
(** ** ble_scanner.py *)

Module BleScanner.

(** *** get_device_info *)

(** The [nonlocal] variables [device_found] and [advertisement_info]. *)
Definition found : Type := (option BLEDevice * option AdvertisementData)%type.

Definition detection_callback (address : string)
    (device : BLEDevice) (advertisement_data : AdvertisementData)
    (s : found) : found :=
  if String.eqb (lower (dev_address device)) (lower address)
  then (Some device, Some advertisement_data)
  else s.

Definition print_advertisement (advertisement_info : AdvertisementData)
  : M unit :=
  (print ("RSSI: " ++ str_of_int (rssi advertisement_info) ++ " dBm") ;;
   print ("Local Name: "
          ++ str_or (local_name advertisement_info) "Not provided") ;;
   print ("TX Power: "
          ++ match tx_power advertisement_info with
             | Some p => str_of_int p
             | None => "None"
             end) ;;
   print ("Service UUIDs: "
          ++ match service_uuids advertisement_info with
             | [] => "None"
             | uuids => repr_list uuids
             end) ;;
   match manufacturer_data advertisement_info with
   | [] => print "Manufacturer Data: None"
   | items =>
       print "Manufacturer Data:" ;;
       for_each items (fun '(company_id, data) =>
         print ("  Company ID " ++ str_of_int company_id ++ ": " ++ hex data))
   end ;;
   match service_data advertisement_info with
   | [] => print "Service Data: None"
   | items =>
       print "Service Data:" ;;
       for_each items (fun '(service_uuid, data) =>
         print ("  Service " ++ service_uuid ++ ": " ++ hex data))
   end)%py.

Definition print_descriptor (descriptor : BleakGATTDescriptor) : M unit :=
  (print ("    Descriptor: " ++ desc_uuid descriptor) ;;
   print ("      Description: " ++ desc_description descriptor))%py.

Definition print_characteristic (characteristic : BleakGATTCharacteristic)
  : M unit :=
  (print ("  Characteristic: " ++ char_uuid characteristic) ;;
   print ("    Description: " ++ char_description characteristic) ;;
   print ("    Properties: " ++ repr_list (char_properties characteristic)) ;;
   descriptors <- lift (char_descriptors characteristic) ;;
   for_each descriptors print_descriptor)%py.

Definition print_service (service : BleakGATTService) : M unit :=
  (print (nl ++ "Service: " ++ svc_uuid service) ;;
   print ("  Description: " ++ svc_description service) ;;
   characteristics <- lift (svc_characteristics service) ;;
   for_each characteristics print_characteristic)%py.

Definition attempt_connection (env : Env) (address : string) : M unit :=
  (print (nl ++ "=== ATTEMPTING CONNECTION ===") ;;
   try_except_Exception
     (async_with_BleakClient env address (fun client =>
        if is_connected client then
          print "✓ Successfully connected!" ;;
          print (nl ++ "=== SERVICES AND CHARACTERISTICS ===") ;;
          svcs <- lift (services client) ;;
          for_each svcs print_service
        else
          print "✗ Failed to connect"))
     (fun connect_error =>
        print ("✗ Connection failed: " ++ connect_error) ;;
        print "  This is normal for many BLE devices that don't accept connections"))%py.

(** The part of [get_device_info] after [scanner.stop()]: [s] holds
    [device_found] and [advertisement_info]. *)
Definition describe_device (env : Env) (address : string) (s : found)
  : M unit :=
  (match fst s with
   | None =>
       print ("Device with address " ++ address ++ " not found during scan.")
   | Some device_found =>
       print (nl ++ "=== BASIC DEVICE INFORMATION ===") ;;
       print ("Name: " ++ str_or (dev_name device_found) "Unknown") ;;
       print ("Address: " ++ dev_address device_found) ;;
       print ("Details: " ++ dev_details device_found) ;;
       print (nl ++ "=== ADVERTISEMENT DATA ===") ;;
       match snd s with
       | Some advertisement_info => print_advertisement advertisement_info
       | None => ret tt
       end ;;
       attempt_connection env address
   end)%py.

Definition get_device_info (env : Env) (address : string) : M unit :=
  (print ("Getting detailed information for device: " ++ address) ;;
   try_except_Exception
     (print "Scanning for device..." ;;
      scanner_start env ;;
      s <- asyncio_sleep env 10 (detection_callback address) (None, None) ;;
      scanner_stop env ;;
      describe_device env address s)
     (fun e => print ("Error getting device information: " ++ e)))%py.

(** *** scan_ble_devices *)

(** The value stored under each address of [discovered_devices]. *)
Record info : Type := {
  device : BLEDevice;
  info_rssi : Z;
  name : string;
  advertisement_data : AdvertisementData
}.

Definition record_of (d : BLEDevice) (ad : AdvertisementData) : info :=
  {| device := d;
     info_rssi := rssi ad;
     name := str_or (dev_name d) "Unknown";
     advertisement_data := ad |}.

Definition collect_callback (d : BLEDevice) (ad : AdvertisementData)
    (discovered_devices : dict info) : dict info :=
  dict_set discovered_devices (dev_address d) (record_of d ad).

Definition filter_devices (dbm_max : Z) (discovered_devices : dict info)
  : dict info :=
  dict_comprehension (fun i => info_rssi i >? dbm_max) discovered_devices.

Definition print_device (entry : string * info) : M unit :=
  (let '(address, i) := entry in
   let ad_data := advertisement_data i in
   print ("Name: " ++ name i) ;;
   print ("Address: " ++ address) ;;
   print ("RSSI: " ++ str_of_int (info_rssi i) ++ " dBm") ;;
   match service_uuids ad_data with
   | [] => ret tt
   | uuids => print ("Services: " ++ repr_list uuids)
   end ;;
   match manufacturer_data ad_data with
   | [] => ret tt
   | items =>
       print ("Manufacturer: "
              ++ join ", "
                   (map (fun '(company_id, _) => "ID:" ++ str_of_int company_id)
                      items))
   end ;;
   print (str_mul "-" 40))%py.

(** The part of [scan_ble_devices] after [scanner.stop()]. *)
Definition report_devices (dbm_max : Z) (discovered_devices : dict info)
  : M unit :=
  (match discovered_devices with
   | [] => print "No BLE devices found."
   | _ =>
       let filtered_devices := filter_devices dbm_max discovered_devices in
       match filtered_devices with
       | [] =>
           print ("No BLE devices found with RSSI > " ++ str_of_int dbm_max
                  ++ " dBm (found " ++ str_of_len (List.length discovered_devices)
                  ++ " total, all filtered out).")
       | _ =>
           print (nl ++ "Found " ++ str_of_len (List.length filtered_devices)
                  ++ " device(s):") ;;
           print (str_mul "-" 80) ;;
           for_each filtered_devices print_device ;;
           print "Scan complete."
       end
   end)%py.

Definition scan_ble_devices (env : Env) (scan_time dbm_max : Z) : M unit :=
  (print ("Starting BLE scan for " ++ str_of_int scan_time ++ " seconds...") ;;
   scanner_start env ;;
   discovered_devices <- asyncio_sleep env scan_time collect_callback [] ;;
   scanner_stop env ;;
   report_devices dbm_max discovered_devices)%py.

(** *** main *)

(** The command line after tokenization and [type=] conversion: the
    options given, in order.  [argparse] has already turned the text
    after [--scan-time] and [--dbm-max] into an [int]. *)
Inductive option_arg : Type :=
| Address (value : string)        (* --address / -a *)
| ScanTime (value : Z)            (* --scan-time / -t *)
| DbmMax (value : Z).             (* --dbm-max / -d *)

Inductive dest : Type := dest_address | dest_scan_time | dest_dbm_max.

Definition dest_of (a : option_arg) : dest :=
  match a with
  | Address _ => dest_address
  | ScanTime _ => dest_scan_time
  | DbmMax _ => dest_dbm_max
  end.

Definition dest_eqb (a b : dest) : bool :=
  match a, b with
  | dest_address, dest_address
  | dest_scan_time, dest_scan_time
  | dest_dbm_max, dest_dbm_max => true
  | _, _ => false
  end.

Record Namespace : Type := {
  address : option string;
  scan_time : Z;
  dbm_max : Z
}.

(** The [default=] of each argument. *)
Definition defaults : Namespace :=
  {| address := None; scan_time := 5; dbm_max := -80 |}.

Definition store (a : option_arg) (ns : Namespace) : Namespace :=
  match a with
  | Address v => {| address := Some v; scan_time := scan_time ns; dbm_max := dbm_max ns |}
  | ScanTime v => {| address := address ns; scan_time := v; dbm_max := dbm_max ns |}
  | DbmMax v => {| address := address ns; scan_time := scan_time ns; dbm_max := v |}
  end.

(** Whether the parser counts an option of the command line as
    given.  Older versions of [argparse] skip an option whose converted
    value is the very object of its [default]: that is [--scan-time 5],
    small integers being shared, and no other case here ([None] is no
    string, [-80] is not shared).  Later versions count every option
    that appears ([every_option = true]). *)
Definition counts (every_option : bool) (a : option_arg) : bool :=
  match a with
  | ScanTime v => every_option || negb (v =? 5)
  | _ => true
  end.

(** [parser.parse_args()].  The three arguments are added to one
    [add_mutually_exclusive_group()]: an option of the group that
    counts as given is refused once another option of the group has
    been counted ([parser.error], that is, usage on standard error and
    [sys.exit(2)]).  Repeating the same option is allowed and the last
    value is kept. *)
Fixpoint parse_from (every_option : bool) (seen : option dest)
    (ns : Namespace) (argv : list option_arg) : outcome Namespace :=
  match argv with
  | [] => Return ns
  | a :: rest =>
      if counts every_option a then
        match seen with
        | Some d =>
            if dest_eqb d (dest_of a)
            then parse_from every_option seen (store a ns) rest
            else Raise (SystemExit 2)
        | None => parse_from every_option (Some (dest_of a)) (store a ns) rest
        end
      else parse_from every_option seen (store a ns) rest
  end.

Definition parse_args (every_option : bool) (argv : list option_arg)
  : outcome Namespace :=
  parse_from every_option None defaults argv.

(** [if args.address:] *)
Definition address_given (args : Namespace) : option string :=
  match address args with
  | Some a => if truthy a then Some a else None
  | None => None
  end.

Definition dispatch (env : Env) (args : Namespace) : M unit :=
  match address_given args with
  | Some a => get_device_info env a
  | None => scan_ble_devices env (scan_time args) (dbm_max args)
  end.

Definition main (every_option : bool) (argv : list option_arg) (env : Env)
  : M unit :=
  (args <- lift (parse_args every_option argv) ;;
   fun st =>
     match dispatch env args st with
     | (Raise KeyboardInterrupt, st') =>
         (print (nl ++ "Scan interrupted by user") ;; raise (SystemExit 0)) st'
     | (Raise (Exception e), st') =>
         (print ("Error: " ++ e) ;; raise (SystemExit 1)) st'
     | r => r
     end)%py.

(** Exit status of [python ble_scanner.py argv]: [0] when [main]
    returns, the code of a [SystemExit], [1] after the traceback of an
    uncaught exception. *)
Definition exit_status (r : outcome unit) : Z :=
  match r with
  | Return _ => 0
  | Raise (SystemExit code) => code
  | Raise (Exception _) => 1
  | Raise KeyboardInterrupt => 130
  end.

Definition run (every_option : bool) (argv : list option_arg) (env : Env)
  : Z * state :=
  let '(r, st) := main every_option argv env initial in (exit_status r, st).

End BleScanner.

(* ================================================================== *)
(** ** disconnect_ble.py *)

Module DisconnectBle.

Definition list_characteristic (char : BleakGATTCharacteristic) : M unit :=
  print ("      Characteristic: " ++ char_uuid char
         ++ " (Properties: " ++ repr_list (char_properties char) ++ ")").

Definition list_service (service : BleakGATTService) : M unit :=
  (print ("    Service: " ++ svc_uuid service) ;;
   characteristics <- lift (svc_characteristics service) ;;
   for_each characteristics list_characteristic)%py.

(** The [async with] block: connect, list the services, disconnect. *)
Definition connect_and_list (env : Env) (device : BLEDevice) : M unit :=
  async_with_BleakClient env (dev_address device) (fun client =>
    print ("  ✓ Connected: " ++ str_of_bool (is_connected client)) ;;
    svcs <- lift (services client) ;;
    print ("  Services found: " ++ str_of_len (List.length svcs)) ;;
    for_each svcs list_service ;;
    print ("  ✓ Disconnected from " ++ dev_address device))%py.

(** The body of the [for device in devices] loop. *)
Definition visit (env : Env) (device : BLEDevice) : M unit :=
  (print ("Device: " ++ str_or (dev_name device) "Unknown"
          ++ " (" ++ dev_address device ++ ")") ;;
   try_except_Exception
     (connect_and_list env device)
     (fun e =>
        print ("  ✗ Skipping (device not available or cannot connect): " ++ e)) ;;
   print "")%py.

Definition scan_and_disconnect_devices (env : Env) : M unit :=
  (print "Scanning for BLE devices..." ;;
   devices <- discover env ;;
   match devices with
   | [] => print "No BLE devices found"
   | _ =>
       print (nl ++ "Found " ++ str_of_len (List.length devices) ++ " device(s):" ++ nl) ;;
       for_each devices (visit env)
   end)%py.

(** [main]: [asyncio.run(scan_and_disconnect_devices())], without any
    handler around it. *)
Definition main (env : Env) : M unit := scan_and_disconnect_devices env.

(** Exit status of [python disconnect_ble.py]. *)
Definition run (env : Env) : Z * state :=
  let '(r, st) := main env initial in (BleScanner.exit_status r, st).

End DisconnectBle.

Import BleScanner.

(* ================================================================== *)
(** ** Vocabulary of the properties *)

(** The dictionary built by [scan_ble_devices] from a stream of
    advertisements: what [asyncio_sleep] hands back to it. *)
Definition collect (events : list (BLEDevice * AdvertisementData)) : dict info :=
  fold_left (fun s ev => collect_callback (fst ev) (snd ev) s) events [].

(** The record the locator of [get_device_info] ends up with. *)
Definition locate (address : string)
    (events : list (BLEDevice * AdvertisementData)) : found :=
  fold_left (fun s ev => detection_callback address (fst ev) (snd ev) s)
    events (None, None).

(** A radio where scanning works and nobody interrupts. *)
Definition scan_succeeds (env : Env) : Prop :=
  scanner_start_raises env = None /\ sleep_raises env = None
  /\ scanner_stop_raises env = None.

(** Addresses the program tried to connect to, in order. *)
Fixpoint attempts (evs : list event) : list string :=
  match evs with
  | [] => []
  | ConnectAttempt a :: r => a :: attempts r
  | _ :: r => attempts r
  end.

(** Durations the program slept for, in order. *)
Fixpoint sleeps (evs : list event) : list Z :=
  match evs with
  | [] => []
  | Sleep n :: r => n :: sleeps r
  | _ :: r => sleeps r
  end.

(** Connection discipline of a trace: [cur] is the connection currently
    open.  A connection is opened only when none is open, the next radio
    operation after [Connected a] is [Disconnect a], and nothing is left
    open at the end. *)
Fixpoint released (cur : option string) (evs : list event) : bool :=
  match evs, cur with
  | [], None => true
  | [], Some _ => false
  | Connected a :: r, None => released (Some a) r
  | Disconnect a :: r, Some b => String.eqb a b && released None r
  | Connected _ :: _, Some _ => false
  | Disconnect _ :: _, None => false
  | _ :: r, None => released None r
  | _ :: _, Some _ => false
  end.

(** Faults that [except Exception] contains. *)
Definition recoverable (e : exn) : bool :=
  match e with
  | Exception _ => true
  | _ => false
  end.

Definition any_exn (e : exn) : Prop := True.

Definition is_Exception (e : exn) : Prop := recoverable e = true.

Definition no_exn (e : exn) : Prop := False.

(** The exceptions an answer of the environment can raise are in [E],
    down the GATT tree. *)
Definition faults_in {A} (E : exn -> Prop) (sub : A -> Prop) (o : outcome A)
  : Prop :=
  match o with
  | Return a => sub a
  | Raise e => E e
  end.

Definition characteristic_faults (E : exn -> Prop) (c : BleakGATTCharacteristic)
  : Prop :=
  faults_in E (fun _ => True) (char_descriptors c).

Definition service_faults (E : exn -> Prop) (s : BleakGATTService) : Prop :=
  faults_in E (Forall (characteristic_faults E)) (svc_characteristics s).

Definition client_faults (E : exn -> Prop) (c : BleakClient) : Prop :=
  faults_in E (Forall (service_faults E)) (services c)
  /\ match disconnect_raises c with
     | Some e => E e
     | None => True
     end.

Definition connection_faults (E : exn -> Prop) (env : Env) : Prop :=
  forall h a, faults_in E (client_faults E) (connect env h a).

(** Every connection or enumeration fault of the environment is an
    [Exception] (refusal, timeout, protocol error). *)
Definition connection_faults_recoverable (env : Env) : Prop :=
  connection_faults is_Exception env.

(** Radio operations of one [async with BleakClient(a)] block: the
    attempt alone when the connection is not obtained, otherwise the
    attempt, the connection and its release. *)
Definition connection_window (a : string) (evs : list event) : Prop :=
  evs = [ConnectAttempt a]
  \/ evs = [ConnectAttempt a; Connected a; Disconnect a].

(** What a computation may add to the state: the radio operations it
    appends satisfy [L], the exception it ends with, if any, satisfies
    [E], and what was printed or done before is kept. *)
Definition acts {A} (L : list event -> Prop) (E : exn -> Prop) (c : M A)
  : Prop :=
  forall st, exists out evs r,
    c st = (r, {| stdout := stdout st ++ out; trace := trace st ++ evs |})
    /\ L evs /\ (forall e, r = Raise e -> E e).

Definition quiet (evs : list event) : Prop := evs = [].

Definition sleeps_all (n : Z) (evs : list event) : Prop :=
  Forall (fun m => m = n) (sleeps evs).

Definition disciplined (evs : list event) : Prop := released None evs = true.

(** The line [disconnect_ble.py] prints for a device it gives up on. *)
Definition skipping (cause : string) : string :=
  "  ✗ Skipping (device not available or cannot connect): " ++ cause.

(** Sample data for the examples. *)
Definition adv (r : Z) : AdvertisementData :=
  {| rssi := r; local_name := None; tx_power := None; service_uuids := [];
     manufacturer_data := []; service_data := [] |}.

Definition dev (a : string) : BLEDevice :=
  {| dev_address := a; dev_name := None; dev_details := "" |}.

Definition refuses : list event -> string -> outcome BleakClient :=
  fun _ _ => Raise (Exception "refused").

Definition radio (events : list (BLEDevice * AdvertisementData)) : Env :=
  {| scanner_start_raises := None; advertisements := events;
     sleep_raises := None; scanner_stop_raises := None;
     discover_result := Return (map fst events); connect := refuses |}.

Definition radio_off : Env :=
  {| scanner_start_raises := Some (Exception "Bluetooth device is turned off");
     advertisements := []; sleep_raises := None; scanner_stop_raises := None;
     discover_result := Raise (Exception "Bluetooth device is turned off");
     connect := refuses |}.

(** The operator presses Ctrl-C while the scan is running. *)
Definition interrupted : Env :=
  {| scanner_start_raises := None;
     advertisements := [(dev "AA", adv (-60))];
     sleep_raises := Some KeyboardInterrupt; scanner_stop_raises := None;
     discover_result := Raise KeyboardInterrupt; connect := refuses |}.

(** A device that accepts connections; reading the characteristics of
    its second service fails. *)
Definition heart_rate : BleakGATTService :=
  {| svc_uuid := "180d"; svc_description := "Heart Rate";
     svc_characteristics :=
       Return [ {| char_uuid := "2a37";
                   char_description := "Heart Rate Measurement";
                   char_properties := ["notify"];
                   char_descriptors :=
                     Return [ {| desc_uuid := "2902";
                                 desc_description :=
                                   "Client Characteristic Configuration" |} ] |} ]
  |}.

Definition battery : BleakGATTService :=
  {| svc_uuid := "180f"; svc_description := "Battery Service";
     svc_characteristics := Raise (Exception "Not connected") |}.

Definition accepting (svcs : list BleakGATTService) : BleakClient :=
  {| is_connected := true; services := Return svcs; disconnect_raises := None |}.

(** [BB] refuses connections, [CC] drops during enumeration. *)
Definition picky : list event -> string -> outcome BleakClient :=
  fun _ a =>
    if String.eqb a "BB" then Raise (Exception "refused")
    else if String.eqb a "CC" then Return (accepting [heart_rate; battery])
    else Return (accepting [heart_rate]).

Definition neighbourhood : Env :=
  {| scanner_start_raises := None;
     advertisements := [(dev "AA", adv (-60)); (dev "BB", adv (-90));
                        (dev "CC", adv (-70))];
     sleep_raises := None; scanner_stop_raises := None;
     discover_result := Return [dev "BB"; dev "CC"; dev "AA"];
     connect := picky |}.

(** Keys of a dictionary after one more assignment to [k]: a new key
    goes to the end, a key already there stays where it is. *)
Definition add_key (ks : list string) (k : string) : list string :=
  if existsb (String.eqb k) ks then ks else (ks ++ [k])%list.

(** Addresses in the order in which they were first heard. *)
Definition first_seen (addrs : list string) : list string :=
  fold_left add_key addrs [].

(** The advertisement comes from the device looked for, up to case. *)
Definition from_address (address : string)
    (ev : BLEDevice * AdvertisementData) : bool :=
  String.eqb (lower (dev_address (fst ev))) (lower address).

(** No connection is attempted. *)
Definition no_attempt (evs : list event) : Prop := attempts evs = [].

(** At most one connection is attempted, to [a]. *)
Definition at_most_one_attempt (a : string) (evs : list event) : Prop :=
  attempts evs = [] \/ attempts evs = [a].

(** Options of the command line that all set the same argument. *)
Definition same_dest (d : dest) (argv : list option_arg) : Prop :=
  Forall (fun a => dest_of a = d) argv.

(* ================================================================== *)
(** ** Strings *)

Lemma ascii_lower_upper (c : ascii) : ascii_lower (ascii_upper c) = ascii_lower c.
Proof. destruct c as [[] [] [] [] [] [] [] []]; reflexivity. Qed.

Lemma ascii_lower_idem (c : ascii) : ascii_lower (ascii_lower c) = ascii_lower c.
Proof. destruct c as [[] [] [] [] [] [] [] []]; reflexivity. Qed.

Lemma lower_upper (s : string) : lower (upper s) = lower s.
Proof.
  induction s as [|c s IH]; simpl; [reflexivity|].
  now rewrite ascii_lower_upper, IH.
Qed.

Lemma lower_idem (s : string) : lower (lower s) = lower s.
Proof.
  induction s as [|c s IH]; simpl; [reflexivity|].
  now rewrite ascii_lower_idem, IH.
Qed.

(* ================================================================== *)
(** ** The locator of get_device_info *)

Lemma detection_callback_lower (a b : string) :
  lower a = lower b ->
  forall d ad s, detection_callback a d ad s = detection_callback b d ad s.
Proof. intros H d ad s. unfold detection_callback. now rewrite H. Qed.

Lemma locate_lower (a b : string) (events : list (BLEDevice * AdvertisementData)) :
  lower a = lower b -> locate a events = locate b events.
Proof.
  intros H. unfold locate. generalize (@None BLEDevice, @None AdvertisementData).
  induction events as [|ev events IH]; intros s; simpl; [reflexivity|].
  rewrite (detection_callback_lower a b H). apply IH.
Qed.

(* ================================================================== *)
(** ** Dictionaries *)

Section DictFacts.
Context {V : Type}.
Implicit Types (d : dict V) (k : string) (v : V).

Lemma dict_get_set_same d k v : dict_get (dict_set d k v) k = Some v.
Proof.
  induction d as [|[k' v'] d IH]; simpl.
  - now rewrite String.eqb_refl.
  - destruct (String.eqb_spec k' k) as [->|Hne]; simpl.
    + now rewrite String.eqb_refl.
    + destruct (String.eqb_spec k' k); [contradiction|exact IH].
Qed.

Lemma dict_get_set_other d k k' v :
  k <> k' -> dict_get (dict_set d k v) k' = dict_get d k'.
Proof.
  intros Hne. induction d as [|[k0 v0] d IH]; simpl.
  - destruct (String.eqb_spec k k'); [contradiction|reflexivity].
  - destruct (String.eqb_spec k0 k) as [->|Hk]; simpl.
    + destruct (String.eqb_spec k k'); [contradiction|reflexivity].
    + now rewrite IH.
Qed.

Lemma dict_set_fresh d k v : ~ In k (keys d) -> dict_set d k v = (d ++ [(k, v)])%list.
Proof.
  induction d as [|[k' v'] d IH]; simpl; intros Hk; [reflexivity|].
  destruct (String.eqb_spec k' k) as [->|Hne]; [tauto|].
  rewrite IH; [reflexivity|tauto].
Qed.

Lemma keys_dict_set d k v k' :
  In k' (keys (dict_set d k v)) <-> k' = k \/ In k' (keys d).
Proof.
  induction d as [|[k0 v0] d IH]; simpl.
  - intuition.
  - destruct (String.eqb_spec k0 k) as [->|Hne]; simpl; intuition.
Qed.

Lemma NoDup_keys_dict_set d k v : NoDup (keys d) -> NoDup (keys (dict_set d k v)).
Proof.
  induction d as [|[k0 v0] d IH]; simpl; intros Hd.
  - constructor; [intros []|constructor].
  - inversion Hd as [|? ? Hnotin Hd']; subst.
    destruct (String.eqb_spec k0 k) as [->|Hne]; simpl.
    + now constructor.
    + constructor; [|now apply IH].
      rewrite keys_dict_set. intros [->|Hin]; [now apply Hne|now apply Hnotin].
Qed.

Lemma dict_comprehension_from (cond : V -> bool) d :
  NoDup (keys d) ->
  forall acc, (forall k, In k (keys acc) -> ~ In k (keys d)) ->
    fold_left
      (fun acc kv => if cond (snd kv) then dict_set acc (fst kv) (snd kv) else acc)
      d acc
    = (acc ++ filter (fun kv => cond (snd kv)) d)%list.
Proof.
  induction d as [|[k v] d IH]; simpl; intros Hd acc Hacc.
  - now rewrite app_nil_r.
  - inversion Hd as [|? ? Hnotin Hd']; subst.
    destruct (cond v).
    + rewrite dict_set_fresh by (intros Hin; apply (Hacc k Hin); now left).
      rewrite IH; [now rewrite <- app_assoc|assumption|].
      intros k'. unfold keys. rewrite map_app, in_app_iff. simpl.
      intros [Hin|[<-|[]]] Hin'; [apply (Hacc k' Hin); now right|].
      now apply Hnotin.
    + apply IH; [assumption|].
      intros k' Hin Hin'. apply (Hacc k' Hin). now right.
Qed.

(** On a dictionary, whose keys are distinct, a comprehension with a
    condition keeps the entries that pass, in their order. *)
Lemma dict_comprehension_filter (cond : V -> bool) d :
  NoDup (keys d) ->
  dict_comprehension cond d = filter (fun kv => cond (snd kv)) d.
Proof.
  intros Hd. unfold dict_comprehension.
  rewrite dict_comprehension_from; [reflexivity|assumption|intros k []].
Qed.
End DictFacts.

Lemma NoDup_keys_fold (events : list (BLEDevice * AdvertisementData)) :
  forall s : dict info, NoDup (keys s) ->
    NoDup (keys (fold_left (fun s ev => collect_callback (fst ev) (snd ev) s)
                   events s)).
Proof.
  induction events as [|ev events IH]; intros s Hs; simpl; [assumption|].
  apply IH. unfold collect_callback. now apply NoDup_keys_dict_set.
Qed.

(** A device identity appears at most once in the collected set. *)
Lemma NoDup_keys_collect (events : list (BLEDevice * AdvertisementData)) :
  NoDup (keys (collect events)).
Proof. apply NoDup_keys_fold. constructor. Qed.

(* ================================================================== *)
(** ** The RSSI filter *)

(** C3: on every discovered-device set and every threshold the filter
    keeps exactly the devices whose recorded RSSI is strictly greater
    than the threshold, in their order; a device whose RSSI equals the
    threshold is left out. *)
Theorem C3_filter_strictly_above :
  forall (discovered_devices : dict info) (dbm_max : Z),
    NoDup (keys discovered_devices) ->
    filter_devices dbm_max discovered_devices
    = filter (fun kv => dbm_max <? info_rssi (snd kv)) discovered_devices
    /\ (forall a i, In (a, i) (filter_devices dbm_max discovered_devices)
                    <-> In (a, i) discovered_devices /\ info_rssi i > dbm_max)
    /\ (forall a i, info_rssi i = dbm_max ->
                    ~ In (a, i) (filter_devices dbm_max discovered_devices)).
Proof.
  intros d t Hd.
  assert (Hf : filter_devices t d = filter (fun kv => t <? info_rssi (snd kv)) d).
  { unfold filter_devices. rewrite dict_comprehension_filter by assumption.
    apply filter_ext. intros [a i]. simpl. now rewrite Z.gtb_ltb. }
  assert (Hin : forall a i, In (a, i) (filter_devices t d)
                            <-> In (a, i) d /\ info_rssi i > t).
  { intros a i. rewrite Hf, filter_In. simpl. rewrite Z.ltb_lt. intuition lia. }
  split; [exact Hf|split; [exact Hin|]].
  intros a i Heq Hc. apply Hin in Hc. lia.
Qed.

Lemma C3_filter_strictly_above_witness :
  let d := collect [(dev "AA", adv (-60)); (dev "BB", adv (-80));
                    (dev "CC", adv (-90))] in
  filter_devices (-80) d = [("AA", record_of (dev "AA") (adv (-60)))]
  /\ ~ In ("BB", record_of (dev "BB") (adv (-80))) (filter_devices (-80) d).
Proof.
  intros d.
  destruct (C3_filter_strictly_above d (-80)) as (Hf & _ & Hb).
  - vm_compute. repeat constructor; simpl; intuition discriminate.
  - split; [rewrite Hf; reflexivity|].
    apply Hb. reflexivity.
Defined.

(* ================================================================== *)
(** ** The advertisement collector *)

Lemma dict_get_fold_other (k : string)
    (events : list (BLEDevice * AdvertisementData)) :
  (forall ev, In ev events -> dev_address (fst ev) <> k) ->
  forall s : dict info,
    dict_get (fold_left (fun s ev => collect_callback (fst ev) (snd ev) s)
                events s) k
    = dict_get s k.
Proof.
  induction events as [|ev events IH]; intros Hev s; simpl; [reflexivity|].
  rewrite IH by (intros ev' Hin; apply Hev; now right).
  unfold collect_callback. apply dict_get_set_other. apply Hev. now left.
Qed.

Lemma asyncio_sleep_collect (env : Env) (secs : Z) (st : state) :
  sleep_raises env = None ->
  asyncio_sleep env secs collect_callback [] st
  = (Return (collect (advertisements env)),
     {| stdout := stdout st; trace := trace st ++ [Sleep secs] |}).
Proof.
  intros H. unfold asyncio_sleep, bind, emit, check, ret. simpl.
  rewrite H. reflexivity.
Qed.

(** C5: when several advertisements of one identity arrive during a
    scan window, the record stored for that identity at the end of the
    window is the one built from the last of them alone: each event
    replaces the stored record as a whole. *)
Theorem C5_last_advertisement_wins :
  forall (env : Env) (secs : Z) (st : state)
         (earlier later : list (BLEDevice * AdvertisementData))
         (d : BLEDevice) (ad : AdvertisementData),
    sleep_raises env = None ->
    advertisements env = (earlier ++ (d, ad) :: later)%list ->
    (forall ev, In ev later -> dev_address (fst ev) <> dev_address d) ->
    exists discovered_devices st',
      asyncio_sleep env secs collect_callback [] st
      = (Return discovered_devices, st')
      /\ dict_get discovered_devices (dev_address d) = Some (record_of d ad).
Proof.
  intros env secs st earlier later d ad Hs Hadv Hlater.
  exists (collect (advertisements env)). eexists. split.
  - now apply asyncio_sleep_collect.
  - rewrite Hadv. unfold collect. rewrite fold_left_app. simpl.
    rewrite dict_get_fold_other by assumption.
    unfold collect_callback. apply dict_get_set_same.
Qed.

Lemma C5_last_advertisement_wins_witness :
  exists discovered_devices st',
    asyncio_sleep
      (radio [(dev "AA", adv (-40)); (dev "BB", adv (-55)); (dev "AA", adv (-70))])
      5 collect_callback [] initial
    = (Return discovered_devices, st')
    /\ dict_get discovered_devices "AA" = Some (record_of (dev "AA") (adv (-70))).
Proof.
  apply (C5_last_advertisement_wins _ 5 initial
           [(dev "AA", adv (-40)); (dev "BB", adv (-55))] [] (dev "AA") (adv (-70))).
  - reflexivity.
  - reflexivity.
  - intros ev [].
Defined.

(* ================================================================== *)
(** ** The bulk-scan reporter *)

Lemma scan_ble_devices_run (env : Env) (scan_time dbm_max : Z) (st : state) :
  scan_succeeds env ->
  scan_ble_devices env scan_time dbm_max st
  = report_devices dbm_max (collect (advertisements env))
      {| stdout := stdout st
                   ++ ["Starting BLE scan for " ++ str_of_int scan_time
                       ++ " seconds..."];
         trace := trace st ++ [ScannerStart; Sleep scan_time; ScannerStop] |}.
Proof.
  intros (H1 & H2 & H3).
  unfold scan_ble_devices, scanner_start, scanner_stop, asyncio_sleep.
  unfold bind, print, emit, check, ret. simpl.
  rewrite H1, H2, H3. simpl. rewrite <- !app_assoc. reflexivity.
Qed.

Lemma collect_callback_fold_nil (events : list (BLEDevice * AdvertisementData)) :
  forall s : dict info, s <> [] ->
    fold_left (fun s ev => collect_callback (fst ev) (snd ev) s) events s <> [].
Proof.
  induction events as [|ev events IH]; intros s Hs; simpl; [assumption|].
  apply IH. unfold collect_callback.
  destruct s as [|[k v] s]; simpl; [discriminate|].
  destruct (String.eqb k (dev_address (fst ev))); discriminate.
Qed.

Lemma collect_nil (events : list (BLEDevice * AdvertisementData)) :
  events <> [] -> collect events <> [].
Proof.
  destruct events as [|ev events]; [congruence|]. intros _.
  unfold collect. simpl. apply collect_callback_fold_nil. discriminate.
Qed.

Lemma filter_none {A} (f : A -> bool) (l : list A) :
  (forall x, In x l -> f x = false) -> filter f l = [].
Proof.
  induction l as [|x l IH]; simpl; intros H; [reflexivity|].
  rewrite (H x) by now left. apply IH. intros y Hy. apply H. now right.
Qed.

Lemma report_devices_all_filtered (dbm_max : Z) (d : dict info) :
  d <> [] -> filter_devices dbm_max d = [] ->
  report_devices dbm_max d
  = print ("No BLE devices found with RSSI > " ++ str_of_int dbm_max
           ++ " dBm (found " ++ str_of_len (List.length d)
           ++ " total, all filtered out).").
Proof.
  intros Hd Hf. unfold report_devices.
  destruct d as [|e d]; [congruence|]. now rewrite Hf.
Qed.

(** C6: the reporter tells the two empty results apart.  When the scan
    collected nothing it prints "No BLE devices found." and stops; when
    devices were collected but each is at or below the threshold it
    prints a different line that carries the threshold and the number of
    devices collected, and stops. *)
Theorem C6_empty_results_distinguished :
  forall (env : Env) (scan_time dbm_max : Z),
    scan_succeeds env ->
    let starting :=
      "Starting BLE scan for " ++ str_of_int scan_time ++ " seconds..." in
    let scanned := [ScannerStart; Sleep scan_time; ScannerStop] in
    let nothing := "No BLE devices found." in
    let all_filtered :=
      "No BLE devices found with RSSI > " ++ str_of_int dbm_max
      ++ " dBm (found "
      ++ str_of_len (List.length (collect (advertisements env)))
      ++ " total, all filtered out)." in
    (advertisements env = [] ->
     scan_ble_devices env scan_time dbm_max initial
     = (Return tt, {| stdout := [starting; nothing]; trace := scanned |}))
    /\ (advertisements env <> [] ->
        (forall a i, In (a, i) (collect (advertisements env)) ->
                     info_rssi i <= dbm_max) ->
        scan_ble_devices env scan_time dbm_max initial
        = (Return tt, {| stdout := [starting; all_filtered]; trace := scanned |}))
    /\ nothing <> all_filtered.
Proof.
  intros env scan_time dbm_max Hscan starting scanned nothing all_filtered.
  split; [|split].
  - intros Hnil. rewrite scan_ble_devices_run by assumption.
    rewrite Hnil. reflexivity.
  - intros Hne Hall. rewrite scan_ble_devices_run by assumption.
    pose proof (collect_nil _ Hne) as Hc.
    assert (Hf : filter_devices dbm_max (collect (advertisements env)) = []).
    { unfold filter_devices.
      rewrite dict_comprehension_filter by apply NoDup_keys_collect.
      apply filter_none. intros [a i] Hin. simpl.
      specialize (Hall a i Hin).
      rewrite Z.gtb_ltb. apply Z.ltb_ge. lia. }
    rewrite report_devices_all_filtered by assumption. reflexivity.
  - subst nothing all_filtered. simpl. discriminate.
Qed.

Lemma C6_empty_results_distinguished_witness :
  scan_ble_devices (radio []) 5 (-80) initial
  = (Return tt,
     {| stdout := ["Starting BLE scan for 5 seconds..."; "No BLE devices found."];
        trace := [ScannerStart; Sleep 5; ScannerStop] |})
  /\ scan_ble_devices (radio [(dev "AA", adv (-80)); (dev "BB", adv (-90))])
       5 (-80) initial
     = (Return tt,
        {| stdout := ["Starting BLE scan for 5 seconds...";
                      "No BLE devices found with RSSI > -80 dBm (found 2 total, all filtered out)."];
           trace := [ScannerStart; Sleep 5; ScannerStop] |}).
Proof.
  split.
  - apply (C6_empty_results_distinguished (radio []) 5 (-80)).
    + repeat split.
    + reflexivity.
  - apply (C6_empty_results_distinguished
             (radio [(dev "AA", adv (-80)); (dev "BB", adv (-90))]) 5 (-80)).
    + repeat split.
    + discriminate.
    + intros a i. vm_compute.
      intros [[= <- <-]|[[= <- <-]|[]]]; discriminate.
Defined.

(* ================================================================== *)
(** ** What computations add to the state *)

Lemma state_eta (st : state) :
  st = {| stdout := stdout st ++ []; trace := trace st ++ [] |}.
Proof. destruct st. simpl. now rewrite !app_nil_r. Qed.

Lemma acts_weaken {A} (L L' : list event -> Prop) (E E' : exn -> Prop) (c : M A) :
  (forall evs, L evs -> L' evs) -> (forall e, E e -> E' e) ->
  acts L E c -> acts L' E' c.
Proof.
  intros HL HE Hc st. destruct (Hc st) as (out & evs & r & Heq & Hl & He).
  exists out, evs, r. split; [assumption|]. split; [now apply HL|].
  intros e Hr. apply HE. now apply He.
Qed.

Lemma acts_ret {A} (E : exn -> Prop) (a : A) : acts quiet E (ret a).
Proof.
  intros st. exists [], [], (Return a). unfold ret. rewrite <- state_eta.
  repeat split. discriminate.
Qed.

Lemma acts_raise {A} (E : exn -> Prop) (e : exn) : E e -> acts quiet E (@raise A e).
Proof.
  intros He st. exists [], [], (Raise e). unfold raise. rewrite <- state_eta.
  repeat split. now intros ? [= <-].
Qed.

Lemma acts_print (E : exn -> Prop) (s : string) : acts quiet E (print s).
Proof.
  intros st. exists [s], [], (Return tt). unfold print. rewrite app_nil_r.
  repeat split. discriminate.
Qed.

Lemma acts_emit (E : exn -> Prop) (e : event) : acts (eq [e]) E (emit e).
Proof.
  intros st. exists [], [e], (Return tt). unfold emit. rewrite app_nil_r.
  repeat split. discriminate.
Qed.

Lemma acts_lift {A} (E : exn -> Prop) (o : outcome A) :
  faults_in E (fun _ => True) o -> acts quiet E (lift o).
Proof.
  destruct o as [a|e]; simpl; intros H; [apply acts_ret|now apply acts_raise].
Qed.

Lemma acts_check (E : exn -> Prop) (o : option exn) :
  (forall e, o = Some e -> E e) -> acts quiet E (check o).
Proof.
  destruct o as [e|]; simpl; intros H; [apply acts_raise; now apply H|apply acts_ret].
Qed.

(** Sequencing: the operations of the first part, then those of the
    second. *)
Lemma acts_seq {A B} (L1 L2 : list event -> Prop) (E : exn -> Prop)
    (c : M A) (k : A -> M B) :
  acts L1 E c -> (forall a, acts L2 E (k a)) ->
  acts (fun evs => L1 evs \/ exists e1 e2, evs = (e1 ++ e2)%list /\ L1 e1 /\ L2 e2)
       E (bind c k).
Proof.
  intros Hc Hk st. destruct (Hc st) as (out & evs & r & Heq & Hl & He).
  unfold bind. rewrite Heq. destruct r as [a|e].
  - destruct (Hk a {| stdout := stdout st ++ out; trace := trace st ++ evs |})
      as (out' & evs' & r' & Heq' & Hl' & He').
    simpl in Heq'. exists (out ++ out')%list, (evs ++ evs')%list, r'.
    rewrite Heq', !app_assoc. split; [reflexivity|]. split; [|assumption].
    right. now exists evs, evs'.
  - exists out, evs, (Raise e). split; [reflexivity|]. split; [now left|].
    intros e0 [= <-]. now apply He.
Qed.

Lemma acts_quiet_then {A B} (L : list event -> Prop) (E : exn -> Prop)
    (c : M A) (k : A -> M B) :
  L [] -> acts quiet E c -> (forall a, acts L E (k a)) -> acts L E (bind c k).
Proof.
  intros Hnil Hc Hk. eapply acts_weaken; [| |apply (acts_seq _ _ _ _ _ Hc Hk)]; auto.
  intros evs [->|(e1 & e2 & -> & -> & H)]; assumption.
Qed.

Lemma acts_then_quiet {A B} (L : list event -> Prop) (E : exn -> Prop)
    (c : M A) (k : A -> M B) :
  acts L E c -> (forall a, acts quiet E (k a)) -> acts L E (bind c k).
Proof.
  intros Hc Hk. eapply acts_weaken; [| |apply (acts_seq _ _ _ _ _ Hc Hk)]; auto.
  intros evs [H|(e1 & e2 & -> & H & ->)]; [assumption|now rewrite app_nil_r].
Qed.

(** An [except Exception] whose handler only prints. *)
Lemma acts_try_except {A} (L : list event -> Prop) (E0 E : exn -> Prop)
    (body : M A) (handler : string -> M A) :
  acts L E0 body -> (forall msg, acts quiet E (handler msg)) ->
  (forall e, E0 e -> recoverable e = false -> E e) ->
  acts L E (try_except_Exception body handler).
Proof.
  intros Hb Hh HE st. destruct (Hb st) as (out & evs & r & Heq & Hl & He).
  unfold try_except_Exception. rewrite Heq.
  destruct r as [a|[msg| |code]].
  - exists out, evs, (Return a). repeat split; [assumption|discriminate].
  - destruct (Hh msg {| stdout := stdout st ++ out; trace := trace st ++ evs |})
      as (out' & evs' & r' & Heq' & -> & He').
    simpl in Heq'. exists (out ++ out')%list, evs, r'.
    rewrite Heq', app_nil_r, app_assoc. split; [reflexivity|]. now split.
  - exists out, evs, (Raise KeyboardInterrupt). repeat split; [assumption|].
    intros e [= <-]. apply HE; [now apply He|reflexivity].
  - exists out, evs, (Raise (SystemExit code)). repeat split; [assumption|].
    intros e [= <-]. apply HE; [now apply He|reflexivity].
Qed.

Section Monoid.
Variable L : list event -> Prop.
Hypothesis L_nil : L [].
Hypothesis L_app : forall a b, L a -> L b -> L (a ++ b)%list.

Lemma acts_quiet {A} (E : exn -> Prop) (c : M A) : acts quiet E c -> acts L E c.
Proof. apply acts_weaken; [now intros evs ->|auto]. Qed.

Lemma acts_bind {A B} (E : exn -> Prop) (c : M A) (k : A -> M B) :
  acts L E c -> (forall a, acts L E (k a)) -> acts L E (bind c k).
Proof.
  intros Hc Hk. eapply acts_weaken; [| |apply (acts_seq _ _ _ _ _ Hc Hk)]; auto.
  intros evs [H|(e1 & e2 & -> & H1 & H2)]; auto.
Qed.

Lemma acts_for_each {A} (E : exn -> Prop) (P : A -> Prop)
    (body : A -> M unit) (xs : list A) :
  (forall x, P x -> acts L E (body x)) -> Forall P xs ->
  acts L E (for_each xs body).
Proof.
  intros Hb. induction 1 as [|x xs Hx Hxs IH]; simpl.
  - apply acts_quiet, acts_ret.
  - apply acts_bind; [now apply Hb|intros _; exact IH].
Qed.
End Monoid.

Lemma quiet_app (a b : list event) : quiet a -> quiet b -> quiet (a ++ b).
Proof. now intros -> ->. Qed.

Lemma sleeps_app (a b : list event) : sleeps (a ++ b) = (sleeps a ++ sleeps b)%list.
Proof.
  induction a as [|e a IH]; simpl; [reflexivity|].
  destruct e; simpl; now rewrite IH.
Qed.

Lemma sleeps_all_app (n : Z) (a b : list event) :
  sleeps_all n a -> sleeps_all n b -> sleeps_all n (a ++ b).
Proof.
  unfold sleeps_all. rewrite sleeps_app. intros Ha Hb. apply Forall_app. now split.
Qed.

Lemma attempts_app (a b : list event) :
  attempts (a ++ b) = (attempts a ++ attempts b)%list.
Proof.
  induction a as [|e a IH]; simpl; [reflexivity|].
  destruct e; simpl; now rewrite IH.
Qed.

Lemma released_app (a b : list event) :
  forall cur, released cur a = true -> released cur (a ++ b) = released None b.
Proof.
  induction a as [|e a IH]; intros cur; simpl.
  - destruct cur; [discriminate|reflexivity].
  - destruct e, cur; try discriminate; try apply IH.
    destruct (String.eqb addr s); simpl; [apply IH|discriminate].
Qed.

Lemma disciplined_app (a b : list event) :
  disciplined a -> disciplined b -> disciplined (a ++ b).
Proof. unfold disciplined. intros Ha Hb. now rewrite (released_app a b None Ha). Qed.

Lemma connection_window_disciplined (a : string) (evs : list event) :
  connection_window a evs -> disciplined evs.
Proof.
  intros [->| ->]; unfold disciplined; simpl; [reflexivity|].
  now rewrite String.eqb_refl.
Qed.

Lemma connection_window_sleeps (a : string) (n : Z) (evs : list event) :
  connection_window a evs -> sleeps_all n evs.
Proof. intros [->| ->]; constructor. Qed.

Lemma connection_window_attempts (a : string) (evs : list event) :
  connection_window a evs -> attempts evs = [a].
Proof. now intros [->| ->]. Qed.

Lemma acts_after_print {A} (L : list event -> Prop) (E : exn -> Prop)
    (s : string) (k : unit -> M A) :
  acts L E (k tt) -> acts L E (bind (print s) k).
Proof.
  intros Hk st. unfold bind, print.
  destruct (Hk {| stdout := stdout st ++ [s]; trace := trace st |})
    as (out & evs & r & Heq & Hl & He).
  simpl in Heq. exists (s :: out), evs, r. rewrite Heq.
  change (s :: out) with ([s] ++ out)%list. rewrite app_assoc. now repeat split.
Qed.

Lemma acts_for_each_all {A} (E : exn -> Prop) (body : A -> M unit) (xs : list A) :
  (forall x, acts quiet E (body x)) -> acts quiet E (for_each xs body).
Proof.
  intros Hb. apply (acts_for_each quiet eq_refl quiet_app E (fun _ => True)).
  - intros x _. apply Hb.
  - now apply Forall_forall.
Qed.

(** Reading a child list of the GATT tree, then going on with it. *)
Lemma acts_bind_lift {A B} (L : list event -> Prop) (E : exn -> Prop)
    (o : outcome A) (k : A -> M B) :
  L [] -> faults_in E (fun a => acts L E (k a)) o -> acts L E (bind (lift o) k).
Proof.
  intros Hnil. destruct o as [a|e]; simpl; intros H.
  - intros st. apply (H st).
  - intros st. exists [], [], (Raise e). unfold bind, raise.
    rewrite <- state_eta. split; [reflexivity|]. split; [assumption|].
    now intros e0 [= <-].
Qed.

Lemma faults_in_impl {A} (E : exn -> Prop) (P Q : A -> Prop) (o : outcome A) :
  (forall a, P a -> Q a) -> faults_in E P o -> faults_in E Q o.
Proof. destruct o; simpl; auto. Qed.

(** Printing goes through every step that only prints. *)
Ltac print_steps :=
  repeat first
    [ apply acts_print
    | apply acts_ret
    | apply acts_after_print
    | apply acts_for_each_all
    | apply (acts_bind quiet quiet_app)
    | match goal with
      | |- forall _ : _ * _, _ => intros [? ?]
      | |- forall _, _ => intro
      end ].

(* ================================================================== *)
(** ** Enumeration only prints *)

Lemma acts_print_advertisement (E : exn -> Prop) (ad : AdvertisementData) :
  acts quiet E (print_advertisement ad).
Proof.
  unfold print_advertisement.
  destruct (manufacturer_data ad), (service_data ad); print_steps.
Qed.

Lemma acts_print_descriptor (E : exn -> Prop) (d : BleakGATTDescriptor) :
  acts quiet E (print_descriptor d).
Proof. unfold print_descriptor. print_steps. Qed.

Lemma acts_print_characteristic (E : exn -> Prop) (c : BleakGATTCharacteristic) :
  characteristic_faults E c -> acts quiet E (print_characteristic c).
Proof.
  unfold characteristic_faults, print_characteristic. intros Hc.
  do 3 apply acts_after_print.
  apply acts_bind_lift; [reflexivity|].
  revert Hc. apply faults_in_impl. intros ds _.
  apply acts_for_each_all. intros d. apply acts_print_descriptor.
Qed.

Lemma acts_print_service (E : exn -> Prop) (s : BleakGATTService) :
  service_faults E s -> acts quiet E (print_service s).
Proof.
  unfold service_faults, print_service. intros Hs.
  do 2 apply acts_after_print.
  apply acts_bind_lift; [reflexivity|].
  revert Hs. apply faults_in_impl. intros cs Hcs.
  apply (acts_for_each quiet eq_refl quiet_app E (characteristic_faults E));
    [apply acts_print_characteristic|assumption].
Qed.

Lemma acts_list_service (E : exn -> Prop) (s : BleakGATTService) :
  service_faults E s -> acts quiet E (DisconnectBle.list_service s).
Proof.
  unfold service_faults, DisconnectBle.list_service. intros Hs.
  apply acts_after_print.
  apply acts_bind_lift; [reflexivity|].
  revert Hs. apply faults_in_impl. intros cs _.
  apply acts_for_each_all. intros c. apply acts_print.
Qed.

Lemma acts_print_device (E : exn -> Prop) (entry : string * info) :
  acts quiet E (print_device entry).
Proof.
  destruct entry as [a i]. unfold print_device.
  destruct (service_uuids (advertisement_data i)),
           (manufacturer_data (advertisement_data i)); print_steps.
Qed.

Lemma acts_report_devices (E : exn -> Prop) (dbm_max : Z) (d : dict info) :
  acts quiet E (report_devices dbm_max d).
Proof.
  unfold report_devices. destruct d as [|e d]; [apply acts_print|].
  destruct (filter_devices dbm_max (e :: d)) as [|e' d']; [apply acts_print|].
  do 2 apply acts_after_print.
  apply (acts_bind quiet quiet_app); [|intros _; apply acts_print].
  apply acts_for_each_all. apply acts_print_device.
Qed.

(** The fault predicates hold of every tree when no exception is
    excluded. *)
Lemma client_faults_any (c : BleakClient) : client_faults any_exn c.
Proof.
  assert (Hc : forall c, characteristic_faults any_exn c).
  { intros c'. unfold characteristic_faults. now destruct (char_descriptors c'). }
  assert (Hs : forall s, service_faults any_exn s).
  { intros s. unfold service_faults.
    destruct (svc_characteristics s); simpl; [|exact I].
    apply Forall_forall. intros x _. apply Hc. }
  split.
  - destruct (services c); simpl; [|exact I].
    apply Forall_forall. intros x _. apply Hs.
  - now destruct (disconnect_raises c).
Qed.

Lemma connection_faults_any (env : Env) : connection_faults any_exn env.
Proof.
  intros h a. destruct (connect env h a); simpl; [apply client_faults_any|exact I].
Qed.

(* ================================================================== *)
(** ** Connections *)

(** One [async with] block whose body only prints: the connection is
    attempted, and when it is obtained it is released however the body
    ends. *)
Lemma acts_async_with (E : exn -> Prop) (env : Env) (a : string)
    (body : BleakClient -> M unit) :
  connection_faults E env ->
  (forall c, client_faults E c -> acts quiet E (body c)) ->
  acts (connection_window a) E (async_with_BleakClient env a body).
Proof.
  intros Hconn Hbody st. specialize (Hconn (trace st) a).
  unfold async_with_BleakClient, bind, history, emit. simpl.
  destruct (connect env (trace st) a) as [c|e]; simpl in *.
  - destruct (Hbody c Hconn
                {| stdout := stdout st;
                   trace := (trace st ++ [ConnectAttempt a]) ++ [Connected a] |})
      as (out & evs & r & Heq & -> & He).
    simpl in Heq. unfold try_finally. rewrite Heq. unfold bind, emit, check. simpl.
    destruct Hconn as [_ Hd].
    destruct (disconnect_raises c) as [e|]; simpl.
    + exists out, [ConnectAttempt a; Connected a; Disconnect a], (Raise e).
      rewrite app_nil_r, <- !app_assoc. split; [reflexivity|].
      split; [now right|]. now intros e0 [= <-].
    + exists out, [ConnectAttempt a; Connected a; Disconnect a], r.
      rewrite app_nil_r, <- !app_assoc. split; [reflexivity|].
      split; [now right|assumption].
  - exists [], [ConnectAttempt a], (Raise e). rewrite app_nil_r.
    split; [reflexivity|]. split; [now left|]. now intros e0 [= <-].
Qed.

Lemma acts_attempt_connection (E E' : exn -> Prop) (env : Env) (a : string) :
  connection_faults E env ->
  (forall e, E e -> recoverable e = false -> E' e) ->
  acts (connection_window a) E' (attempt_connection env a).
Proof.
  intros Hconn HE. unfold attempt_connection.
  apply acts_after_print.
  apply (acts_try_except _ E); [|intros msg; print_steps|assumption].
  apply acts_async_with; [assumption|].
  intros c [Hs _]. destruct (is_connected c); [|apply acts_print].
  do 2 apply acts_after_print. apply acts_bind_lift; [reflexivity|].
  revert Hs. apply faults_in_impl. intros svcs Hsvcs.
  apply (acts_for_each quiet eq_refl quiet_app E (service_faults E));
    [apply acts_print_service|assumption].
Qed.

Lemma acts_visit (E E' : exn -> Prop) (env : Env) (d : BLEDevice) :
  connection_faults E env ->
  (forall e, E e -> recoverable e = false -> E' e) ->
  acts (connection_window (dev_address d)) E' (DisconnectBle.visit env d).
Proof.
  intros Hconn HE. unfold DisconnectBle.visit.
  apply acts_after_print.
  apply acts_then_quiet; [|intros _; apply acts_print].
  apply (acts_try_except _ E); [|intros msg; apply acts_print|assumption].
  unfold DisconnectBle.connect_and_list.
  apply acts_async_with; [assumption|].
  intros c [Hs _]. apply acts_after_print. apply acts_bind_lift; [reflexivity|].
  revert Hs. apply faults_in_impl. intros svcs Hsvcs.
  apply acts_after_print.
  apply (acts_bind quiet quiet_app); [|intros _; apply acts_print].
  apply (acts_for_each quiet eq_refl quiet_app E (service_faults E));
    [apply acts_list_service|assumption].
Qed.

Section Monoid_programs.
Variable L : list event -> Prop.
Hypothesis L_nil : L [].
Hypothesis L_app : forall a b, L a -> L b -> L (a ++ b)%list.
Hypothesis L_window : forall a evs, connection_window a evs -> L evs.

Lemma acts_describe_device (E E' : exn -> Prop) (env : Env) (a : string)
    (s : found) :
  connection_faults E env ->
  (forall e, E e -> recoverable e = false -> E' e) ->
  acts L E' (describe_device env a s).
Proof.
  intros Hconn HE. unfold describe_device.
  destruct (fst s) as [d|]; [|apply (acts_quiet L L_nil), acts_print].
  do 5 apply acts_after_print.
  apply acts_quiet_then; [assumption| |intros _].
  - destruct (snd s); [apply acts_print_advertisement|apply acts_ret].
  - apply (acts_weaken (connection_window a) L E' E');
      [apply L_window|auto|].
    now apply (acts_attempt_connection E).
Qed.

Hypothesis L_start : L [ScannerStart].
Hypothesis L_stop : L [ScannerStop].

Lemma acts_scanner_start (env : Env) : acts L any_exn (scanner_start env).
Proof.
  unfold scanner_start. apply acts_quiet_then; [assumption| |intros _].
  - now apply acts_check.
  - apply (acts_weaken (eq [ScannerStart]) L any_exn any_exn);
      [now intros evs <-|auto|apply acts_emit].
Qed.

Lemma acts_scanner_stop (env : Env) : acts L any_exn (scanner_stop env).
Proof.
  unfold scanner_stop. apply acts_quiet_then; [assumption| |intros _].
  - now apply acts_check.
  - apply (acts_weaken (eq [ScannerStop]) L any_exn any_exn);
      [now intros evs <-|auto|apply acts_emit].
Qed.

Lemma acts_asyncio_sleep {S} (env : Env) (secs : Z)
    (cb : BLEDevice -> AdvertisementData -> S -> S) (s0 : S) :
  L [Sleep secs] -> acts L any_exn (asyncio_sleep env secs cb s0).
Proof.
  intros Hs. unfold asyncio_sleep. apply (acts_bind L L_app).
  - apply (acts_weaken (eq [Sleep secs]) L any_exn any_exn);
      [now intros evs <-|auto|apply acts_emit].
  - intros _. apply (acts_quiet L L_nil).
    apply (acts_bind quiet quiet_app); [now apply acts_check|].
    intros _. apply acts_ret.
Qed.

Lemma acts_get_device_info (env : Env) (address : string) :
  L [Sleep 10] -> acts L any_exn (get_device_info env address).
Proof.
  intros Hs. unfold get_device_info. apply acts_after_print.
  apply (acts_try_except _ any_exn); [|intros msg; apply acts_print|auto].
  apply acts_after_print.
  apply (acts_bind L L_app); [apply acts_scanner_start|intros _].
  apply (acts_bind L L_app); [now apply acts_asyncio_sleep|intros s].
  apply (acts_bind L L_app); [apply acts_scanner_stop|intros _].
  apply (acts_describe_device any_exn); [apply connection_faults_any|auto].
Qed.

Lemma acts_scan_ble_devices (env : Env) (secs dbm : Z) :
  L [Sleep secs] -> acts L any_exn (scan_ble_devices env secs dbm).
Proof.
  intros Hs. unfold scan_ble_devices. apply acts_after_print.
  apply (acts_bind L L_app); [apply acts_scanner_start|intros _].
  apply (acts_bind L L_app); [now apply acts_asyncio_sleep|intros s].
  apply (acts_bind L L_app); [apply acts_scanner_stop|intros _].
  apply (acts_quiet L L_nil), acts_report_devices.
Qed.

Lemma acts_dispatch (env : Env) (args : Namespace) :
  (forall n, L [Sleep n]) -> acts L any_exn (dispatch env args).
Proof.
  intros Hs. unfold dispatch.
  destruct (address_given args);
    [apply acts_get_device_info|apply acts_scan_ble_devices]; apply Hs.
Qed.

Lemma acts_main (v : bool) (argv : list option_arg) (env : Env) :
  (forall n, L [Sleep n]) -> acts L any_exn (main v argv env).
Proof.
  intros Hs. unfold main. apply acts_bind_lift; [assumption|].
  destruct (parse_args v argv) as [args|e]; simpl; [|exact I].
  intros st. destruct (acts_dispatch env args Hs st)
    as (out & evs & r & Heq & Hl & _).
  rewrite Heq. destruct r as [[]|[msg| |code]].
  - exists out, evs, (Return tt). now repeat split.
  - exists (out ++ [("Error: " ++ msg)%string])%list, evs, (Raise (SystemExit 1)).
    unfold bind, print, raise. simpl. rewrite <- app_assoc. now repeat split.
  - exists (out ++ [(nl ++ "Scan interrupted by user")%string])%list, evs,
      (Raise (SystemExit 0)).
    unfold bind, print, raise. simpl. rewrite <- app_assoc. now repeat split.
  - exists out, evs, (Raise (SystemExit code)). now repeat split.
Qed.

Hypothesis L_discover : L [Discover].

Lemma acts_scan_and_disconnect_devices (env : Env) :
  acts L any_exn (DisconnectBle.scan_and_disconnect_devices env).
Proof.
  unfold DisconnectBle.scan_and_disconnect_devices. apply acts_after_print.
  apply (acts_bind L L_app).
  - unfold discover. apply (acts_bind L L_app).
    + apply (acts_weaken (eq [Discover]) L any_exn any_exn);
        [now intros evs <-|auto|apply acts_emit].
    + intros _. apply (acts_quiet L L_nil), acts_lift.
      now destruct (discover_result env).
  - intros [|d devices]; [apply (acts_quiet L L_nil), acts_print|].
    apply acts_after_print.
    apply (acts_for_each L L_nil L_app any_exn (fun _ => True));
      [|now apply Forall_forall].
    intros d' _.
    apply (acts_weaken (connection_window (dev_address d')) L any_exn any_exn);
      [apply L_window|auto|].
    apply (acts_visit any_exn); [apply connection_faults_any|auto].
Qed.
End Monoid_programs.

Lemma acts_initial {A} (L : list event -> Prop) (E : exn -> Prop) (c : M A) :
  acts L E c -> L (trace (snd (c initial))).
Proof.
  intros Hc. destruct (Hc initial) as (out & evs & r & Heq & Hl & _).
  rewrite Heq. exact Hl.
Qed.

(** C8: a connection that was opened is closed before the program does
    anything else with the radio, however the enumeration ends, and none
    is open when the program stops.  This holds of the detail lookup,
    of the whole scanner program and of the bulk
    connect-enumerate-disconnect pass, for every behaviour of the radio,
    including enumerations that raise and interrupts. *)
Theorem C8_connection_always_released :
  forall (env : Env),
    (forall address,
        released None (trace (snd (get_device_info env address initial))) = true)
    /\ (forall every_option argv,
           released None (trace (snd (main every_option argv env initial)))
           = true)
    /\ released None
         (trace (snd (DisconnectBle.scan_and_disconnect_devices env initial)))
       = true.
Proof.
  intros env. split; [|split].
  - intros address.
    apply (acts_initial disciplined any_exn (get_device_info env address)).
    apply acts_get_device_info;
      [reflexivity|apply disciplined_app|apply connection_window_disciplined| | |];
      reflexivity.
  - intros v argv.
    apply (acts_initial disciplined any_exn (main v argv env)).
    apply acts_main;
      [reflexivity|apply disciplined_app|apply connection_window_disciplined| | |];
      reflexivity.
  - apply (acts_initial disciplined any_exn
             (DisconnectBle.scan_and_disconnect_devices env)).
    apply acts_scan_and_disconnect_devices;
      [reflexivity|apply disciplined_app|apply connection_window_disciplined|];
      reflexivity.
Qed.

(** An interrupted enumeration still releases the connection. *)
Example enumeration_fault_releases :
  snd (DisconnectBle.visit neighbourhood (dev "CC") initial)
  = {| stdout := ["Device: Unknown (CC)"; "  ✓ Connected: True";
                  "  Services found: 2"; "    Service: 180d";
                  "      Characteristic: 2a37 (Properties: ['notify'])";
                  "    Service: 180f"; skipping "Not connected"; ""];
       trace := [ConnectAttempt "CC"; Connected "CC"; Disconnect "CC"] |}.
Proof. reflexivity. Qed.

(* ================================================================== *)
(** ** The entry point of ble_scanner.py *)

Lemma run_dispatch (v : bool) (argv : list option_arg) (env : Env)
    (args : Namespace) :
  parse_args v argv = Return args ->
  run v argv env
  = match dispatch env args initial with
    | (Return _, st) => (0, st)
    | (Raise (Exception e), st) =>
        (1, {| stdout := stdout st ++ ["Error: " ++ e]; trace := trace st |})
    | (Raise KeyboardInterrupt, st) =>
        (0, {| stdout := stdout st ++ [nl ++ "Scan interrupted by user"];
               trace := trace st |})
    | (Raise (SystemExit code), st) => (code, st)
    end.
Proof.
  intros Hp. unfold run, main, bind, lift. rewrite Hp. unfold ret.
  destruct (dispatch env args initial) as [[[]|[msg| |code]] st]; reflexivity.
Qed.

Lemma get_device_info_run (env : Env) (address : string) (st : state) :
  scan_succeeds env ->
  get_device_info env address st
  = try_except_Exception
      (describe_device env address (locate address (advertisements env)))
      (fun e => print ("Error getting device information: " ++ e))
      {| stdout := stdout st
                   ++ ["Getting detailed information for device: " ++ address;
                       "Scanning for device..."];
         trace := trace st ++ [ScannerStart; Sleep 10; ScannerStop] |}.
Proof.
  intros (H1 & H2 & H3).
  unfold get_device_info, scanner_start, scanner_stop, asyncio_sleep.
  unfold try_except_Exception, bind, print, emit, check, ret. simpl.
  rewrite H1, H2, H3. simpl. rewrite <- !app_assoc. reflexivity.
Qed.

(** C10: in single-device detail mode every sleep of the program lasts
    10 seconds whatever the command line says, and when scanning works
    the program starts the scanner, sleeps 10 seconds and stops the
    scanner before it looks at what was found; in bulk mode the sleep
    lasts the configured scan time. *)
Theorem C10_detail_scan_lasts_ten_seconds :
  forall (every_option : bool) (argv : list option_arg) (env : Env)
         (args : Namespace),
    parse_args every_option argv = Return args ->
    match address_given args with
    | Some a =>
        Forall (fun n => n = 10)
          (sleeps (trace (snd (run every_option argv env))))
        /\ (scan_succeeds env ->
            exists evs, trace (snd (run every_option argv env))
                        = ScannerStart :: Sleep 10 :: ScannerStop :: evs)
    | None =>
        scan_succeeds env ->
        trace (snd (run every_option argv env))
        = [ScannerStart; Sleep (scan_time args); ScannerStop]
    end.
Proof.
  intros v argv env args Hp.
  assert (Ht : trace (snd (run v argv env))
               = trace (snd (dispatch env args initial))).
  { rewrite (run_dispatch _ _ _ _ Hp).
    destruct (dispatch env args initial) as [[[]|[msg| |code]] st]; reflexivity. }
  rewrite Ht. unfold dispatch.
  destruct (address_given args) as [a|].
  - split.
    + apply (acts_initial (sleeps_all 10) any_exn (get_device_info env a)).
      apply acts_get_device_info; try (now constructor).
      * apply sleeps_all_app.
      * intros a'. apply connection_window_sleeps.
    + intros Hscan. rewrite get_device_info_run by assumption.
      assert (Hd : acts (fun _ => True) any_exn
                     (try_except_Exception
                        (describe_device env a (locate a (advertisements env)))
                        (fun e => print ("Error getting device information: " ++ e)))).
      { apply (acts_try_except _ any_exn); [|intros msg; apply acts_print|auto].
        apply (acts_describe_device (fun _ => True)) with (E := any_exn); auto.
        apply connection_faults_any. }
      match goal with
      | |- context [try_except_Exception ?b ?h ?s] =>
          destruct (Hd s) as (out & evs & r & Heq & _ & _)
      end.
      rewrite Heq. simpl. now exists evs.
  - intros Hscan. rewrite scan_ble_devices_run by assumption.
    match goal with
    | |- context [report_devices ?d ?c ?s] =>
        destruct (acts_report_devices any_exn d c s) as (out & evs & r & Heq & -> & _)
    end.
    rewrite Heq. simpl. reflexivity.
Qed.

Lemma C10_detail_scan_lasts_ten_seconds_witness :
  (Forall (fun n => n = 10)
     (sleeps (trace (snd (run true [Address "AA:BB:CC:DD:EE:FF"] neighbourhood))))
   /\ exists evs,
        trace (snd (run true [Address "AA:BB:CC:DD:EE:FF"] neighbourhood))
        = ScannerStart :: Sleep 10 :: ScannerStop :: evs)
  /\ (Forall (fun n => n = 10)
        (sleeps (trace (snd (run false [ScanTime 5; Address "AA"] neighbourhood)))))
  /\ trace (snd (run true [ScanTime 30] neighbourhood))
     = [ScannerStart; Sleep 30; ScannerStop].
Proof.
  split; [|split].
  - destruct (C10_detail_scan_lasts_ten_seconds true
                [Address "AA:BB:CC:DD:EE:FF"] neighbourhood _ eq_refl) as [Ha Hb].
    split; [exact Ha|]. apply Hb. repeat split.
  - apply (C10_detail_scan_lasts_ten_seconds false
             [ScanTime 5; Address "AA"] neighbourhood _ eq_refl).
  - apply (C10_detail_scan_lasts_ten_seconds true [ScanTime 30] neighbourhood
             _ eq_refl).
    repeat split.
Defined.

(** C9: an empty string given as [--address] is stored in the
    namespace, yet the dispatch, which tests the truthiness of the
    value, runs the bulk scan with the default duration and threshold,
    exactly as a command line without options does; any non-empty value
    selects the detail mode. *)
Theorem C9_empty_address_runs_bulk_scan :
  forall (every_option : bool) (env : Env),
    parse_args every_option [Address ""]
    = Return {| address := Some ""; scan_time := 5; dbm_max := -80 |}
    /\ dispatch env {| address := Some ""; scan_time := 5; dbm_max := -80 |}
       = scan_ble_devices env 5 (-80)
    /\ (forall st, main every_option [Address ""] env st
                   = main every_option [] env st)
    /\ run every_option [Address ""] env = run every_option [] env
    /\ (forall c s t d,
           dispatch env {| address := Some (String c s); scan_time := t;
                           dbm_max := d |}
           = get_device_info env (String c s)).
Proof.
  intros v env. repeat split.
Qed.

(** C1 fails on the code: [--scan-time] and [--dbm-max] are declared in
    the same mutually exclusive group as [--address], so a command line
    that gives both, in either order, is refused by the parser: the
    process exits with status 2 before any scan starts and nothing is
    reported.  (Only [--scan-time 5], which older parsers do not count
    as given, goes through.) *)
Theorem C1_scan_time_with_dbm_max_is_refused :
  forall (every_option : bool) (env : Env),
    run every_option [ScanTime 10; DbmMax (-70)] env = (2, initial)
    /\ run every_option [DbmMax (-70); ScanTime 10] env = (2, initial)
    /\ (forall t d,
           parse_args every_option [ScanTime t; DbmMax d]
           = if every_option || negb (t =? 5)
             then Raise (SystemExit 2)
             else Return {| address := None; scan_time := t; dbm_max := d |})
    /\ (forall t d,
           parse_args every_option [DbmMax d; ScanTime t]
           = if every_option || negb (t =? 5)
             then Raise (SystemExit 2)
             else Return {| address := None; scan_time := t; dbm_max := d |}).
Proof.
  intros v env. split; [|split; [|split]].
  - destruct v; reflexivity.
  - destruct v; reflexivity.
  - intros t d. unfold parse_args. simpl.
    destruct (v || negb (t =? 5)); reflexivity.
  - intros t d. unfold parse_args. simpl.
    destruct (v || negb (t =? 5)); reflexivity.
Qed.

(** Each option alone does take effect. *)
Example scan_time_alone :
  run true [ScanTime 10] neighbourhood
  = (0, {| stdout := ["Starting BLE scan for 10 seconds...";
                      nl ++ "Found 2 device(s):"; str_mul "-" 80;
                      "Name: Unknown"; "Address: AA"; "RSSI: -60 dBm";
                      str_mul "-" 40;
                      "Name: Unknown"; "Address: CC"; "RSSI: -70 dBm";
                      str_mul "-" 40; "Scan complete."];
           trace := [ScannerStart; Sleep 10; ScannerStop] |}).
Proof. reflexivity. Qed.

Example dbm_max_alone :
  run true [DbmMax (-70)] neighbourhood
  = (0, {| stdout := ["Starting BLE scan for 5 seconds...";
                      nl ++ "Found 1 device(s):"; str_mul "-" 80;
                      "Name: Unknown"; "Address: AA"; "RSSI: -60 dBm";
                      str_mul "-" 40; "Scan complete."];
           trace := [ScannerStart; Sleep 5; ScannerStop] |}).
Proof. reflexivity. Qed.

(* ================================================================== *)
(** ** Exit status *)

(** C2 as stated fails in detail mode: with the radio unavailable,
    [get_device_info] catches the failure itself and the process exits
    with status 0. *)
Lemma C2_radio_unavailable_in_detail_mode :
  ~ (forall (every_option : bool) (argv : list option_arg) (env : Env)
            (args : Namespace) (msg : string),
        parse_args every_option argv = Return args ->
        scanner_start_raises env = Some (Exception msg) ->
        fst (run every_option argv env) = 1).
Proof.
  intros H.
  specialize (H true [Address "AA:BB:CC:DD:EE:FF"] radio_off _ _ eq_refl eq_refl).
  vm_compute in H. discriminate H.
Qed.

Lemma dispatch_returns (env : Env) (args : Namespace) :
  scan_succeeds env -> connection_faults_recoverable env ->
  fst (dispatch env args initial) = Return tt.
Proof.
  intros Hscan Hconn. unfold dispatch.
  destruct (address_given args) as [a|].
  - rewrite get_device_info_run by assumption.
    assert (Hd : acts (fun _ => True) no_exn
                   (try_except_Exception
                      (describe_device env a (locate a (advertisements env)))
                      (fun e => print ("Error getting device information: " ++ e)))).
    { apply (acts_try_except _ no_exn); [|intros msg; apply acts_print|auto].
      apply (acts_describe_device (fun _ => True)) with (E := is_Exception); auto.
      unfold is_Exception. intros e He Hn. congruence. }
    match goal with
    | |- context [try_except_Exception ?b ?h ?s] =>
        destruct (Hd s) as (out & evs & r & Heq & _ & He)
    end.
    rewrite Heq. simpl. destruct r as [[]|e]; [reflexivity|].
    destruct (He e eq_refl).
  - rewrite scan_ble_devices_run by assumption.
    match goal with
    | |- context [report_devices ?d ?c ?s] =>
        destruct (acts_report_devices no_exn d c s) as (out & evs & r & Heq & _ & He)
    end.
    rewrite Heq. simpl. destruct r as [[]|e]; [reflexivity|].
    destruct (He e eq_refl).
Qed.

(** C2, amended: with the radio unavailable, bulk mode lets the failure
    reach the top level, which reports it and exits with status 1, while
    detail mode reports it inside [get_device_info] and exits with
    status 0; an interrupt of the scan, and any interrupt that reaches
    [main], exits with status 0 after the acknowledgement; and when
    scanning works, connection and enumeration faults leave the exit
    status at 0. *)
Theorem C2_exit_status_by_mode :
  forall (every_option : bool) (argv : list option_arg) (env : Env)
         (args : Namespace),
    parse_args every_option argv = Return args ->
    (forall msg, scanner_start_raises env = Some (Exception msg) ->
       match address_given args with
       | None =>
           run every_option argv env
           = (1, {| stdout := ["Starting BLE scan for "
                               ++ str_of_int (scan_time args) ++ " seconds...";
                               "Error: " ++ msg];
                    trace := [] |})
       | Some a =>
           run every_option argv env
           = (0, {| stdout := ["Getting detailed information for device: " ++ a;
                               "Scanning for device...";
                               "Error getting device information: " ++ msg];
                    trace := [] |})
       end)
    /\ (scanner_start_raises env = Some KeyboardInterrupt
        \/ (scanner_start_raises env = None
            /\ sleep_raises env = Some KeyboardInterrupt) ->
        fst (run every_option argv env) = 0
        /\ last (stdout (snd (run every_option argv env))) ""
           = nl ++ "Scan interrupted by user")
    /\ (fst (dispatch env args initial) = Raise KeyboardInterrupt ->
        fst (run every_option argv env) = 0)
    /\ (scan_succeeds env -> connection_faults_recoverable env ->
        fst (run every_option argv env) = 0).
Proof.
  intros v argv env args Hp. rewrite (run_dispatch _ _ _ _ Hp).
  split; [|split; [|split]].
  - intros msg Hs. unfold dispatch.
    destruct (address_given args) as [a|].
    + unfold get_device_info, scanner_start, try_except_Exception.
      unfold bind, print, check, raise. simpl. rewrite Hs. reflexivity.
    + unfold scan_ble_devices, scanner_start.
      unfold bind, print, check, raise. simpl. rewrite Hs. reflexivity.
  - intros Hi. unfold dispatch.
    destruct (address_given args) as [a|].
    + unfold get_device_info, scanner_start, asyncio_sleep, try_except_Exception.
      unfold bind, print, emit, check, raise, ret. simpl.
      destruct Hi as [Hs|[Hs Hz]]; rewrite Hs; simpl; [|rewrite Hz; simpl];
        (split; reflexivity).
    + unfold scan_ble_devices, scanner_start, asyncio_sleep.
      unfold bind, print, emit, check, raise, ret. simpl.
      destruct Hi as [Hs|[Hs Hz]]; rewrite Hs; simpl; [|rewrite Hz; simpl];
        (split; reflexivity).
  - intros Hr. destruct (dispatch env args initial) as [r st].
    simpl in Hr. now subst r.
  - intros Hscan Hconn.
    pose proof (dispatch_returns env args Hscan Hconn) as Hr.
    destruct (dispatch env args initial) as [r st]. simpl in Hr. now subst r.
Qed.

Lemma C2_exit_status_by_mode_witness :
  run true [] radio_off
  = (1, {| stdout := ["Starting BLE scan for 5 seconds...";
                      "Error: Bluetooth device is turned off"];
           trace := [] |})
  /\ run true [Address "AA:BB:CC:DD:EE:FF"] radio_off
     = (0, {| stdout := ["Getting detailed information for device: AA:BB:CC:DD:EE:FF";
                         "Scanning for device...";
                         "Error getting device information: Bluetooth device is turned off"];
              trace := [] |})
  /\ fst (run true [Address "CC"] neighbourhood) = 0
  /\ fst (run true [ScanTime 30] interrupted) = 0.
Proof.
  split; [|split; [|split]]; cycle 3.
  - destruct (C2_exit_status_by_mode true [ScanTime 30] interrupted _ eq_refl)
      as (_ & Hi & _ & _).
    apply Hi. right. split; reflexivity.
  - apply (C2_exit_status_by_mode true [] radio_off _ eq_refl). reflexivity.
  - apply (C2_exit_status_by_mode true [Address "AA:BB:CC:DD:EE:FF"] radio_off _ eq_refl).
    reflexivity.
  - apply (C2_exit_status_by_mode true [Address "CC"] neighbourhood _ eq_refl).
    + repeat split.
    + intros h a. unfold neighbourhood, picky. simpl.
      destruct (String.eqb a "BB"); [reflexivity|].
      destruct (String.eqb a "CC"); simpl; repeat constructor.
Defined.

(* ================================================================== *)
(** ** The bulk connect-enumerate-disconnect pass *)

Lemma visit_caught (env : Env) (d : BLEDevice) (st st1 : state) (msg : string) :
  DisconnectBle.connect_and_list env d
    {| stdout := stdout st
                 ++ ["Device: " ++ str_or (dev_name d) "Unknown"
                     ++ " (" ++ dev_address d ++ ")"];
       trace := trace st |}
  = (Raise (Exception msg), st1) ->
  DisconnectBle.visit env d st
  = (Return tt,
     {| stdout := stdout st1 ++ [skipping msg; ""]; trace := trace st1 |}).
Proof.
  intros H. unfold DisconnectBle.visit, try_except_Exception, bind, print.
  cbv beta iota. rewrite H. cbv beta iota. unfold stdout at 1, trace at 1.
  rewrite <- app_assoc. reflexivity.
Qed.

Lemma visit_returns (env : Env) (d : BLEDevice) (st : state) :
  connection_faults_recoverable env ->
  exists out evs,
    DisconnectBle.visit env d st
    = (Return tt, {| stdout := stdout st ++ out; trace := trace st ++ evs |})
    /\ connection_window (dev_address d) evs.
Proof.
  intros Hconn.
  destruct (acts_visit is_Exception no_exn env d Hconn) with (st := st)
    as (out & evs & r & Heq & Hw & He).
  - unfold is_Exception. intros e H1 H2. congruence.
  - exists out, evs. split; [|assumption].
    destruct r as [[]|e]; [assumption|destruct (He e eq_refl)].
Qed.

Lemma for_each_visit (env : Env) (devices : list BLEDevice) :
  connection_faults_recoverable env ->
  forall st, exists st',
    for_each devices (DisconnectBle.visit env) st = (Return tt, st')
    /\ attempts (trace st')
       = (attempts (trace st) ++ map dev_address devices)%list
    /\ (forall line, In line (stdout st) -> In line (stdout st'))
    /\ (forall before d after,
           devices = (before ++ d :: after)%list ->
           exists st_d,
             for_each before (DisconnectBle.visit env) st = (Return tt, st_d)
             /\ forall msg st1,
                 DisconnectBle.connect_and_list env d
                   {| stdout := stdout st_d
                                ++ ["Device: " ++ str_or (dev_name d) "Unknown"
                                    ++ " (" ++ dev_address d ++ ")"];
                      trace := trace st_d |}
                 = (Raise (Exception msg), st1) ->
                 In (skipping msg) (stdout st')).
Proof.
  intros Hconn. induction devices as [|x xs IH]; intros st.
  - exists st. simpl. rewrite app_nil_r. repeat split; auto.
    intros [|? ?] ? ? H; discriminate H.
  - destruct (visit_returns env x st Hconn) as (out & evs & Hx & Hw).
    destruct (IH {| stdout := stdout st ++ out; trace := trace st ++ evs |})
      as (st' & Hrun & Hatt & Hmono & Hcause).
    exists st'. simpl. unfold bind. rewrite Hx.
    split; [exact Hrun|]. split; [|split].
    + rewrite Hatt. simpl. rewrite attempts_app.
      rewrite (connection_window_attempts _ _ Hw), <- app_assoc. reflexivity.
    + intros line Hin. apply Hmono. simpl. apply in_or_app. now left.
    + intros [|b before] d after Heq; simpl in Heq; injection Heq as <- Hxs.
      * exists st. split; [reflexivity|]. intros msg st1 Hc.
        rewrite (visit_caught _ _ _ _ _ Hc) in Hx. injection Hx as Hout Htr.
        apply Hmono. simpl. rewrite <- Hout. apply in_or_app. right. now left.
      * destruct (Hcause before d after Hxs) as (st_d & Hb & Hd).
        exists st_d. split; [|exact Hd]. simpl. unfold bind. now rewrite Hx.
Qed.

(** C4: in the bulk pass, when every connection or enumeration fault is
    an exception of the kind [except Exception] catches (timeout,
    refusal, protocol error), the pass returns normally, it attempts a
    connection to every discovered device, in order, and for each device
    whose connection or enumeration fails the line reporting the cause
    is in the output: no failure stops the pass. *)
Theorem C4_bulk_pass_continues_after_failure :
  forall (env : Env) (devices : list BLEDevice),
    connection_faults_recoverable env ->
    discover_result env = Return devices ->
    exists st',
      DisconnectBle.scan_and_disconnect_devices env initial = (Return tt, st')
      /\ attempts (trace st') = map dev_address devices
      /\ (forall before d after,
             devices = (before ++ d :: after)%list ->
             exists st_d,
               for_each before (DisconnectBle.visit env)
                 {| stdout := ["Scanning for BLE devices...";
                               nl ++ "Found " ++ str_of_len (List.length devices)
                               ++ " device(s):" ++ nl];
                    trace := [Discover] |}
               = (Return tt, st_d)
               /\ forall msg st1,
                   DisconnectBle.connect_and_list env d
                     {| stdout := stdout st_d
                                  ++ ["Device: " ++ str_or (dev_name d) "Unknown"
                                      ++ " (" ++ dev_address d ++ ")"];
                        trace := trace st_d |}
                   = (Raise (Exception msg), st1) ->
                   In (skipping msg) (stdout st')).
Proof.
  intros env devices Hconn Hdisc.
  unfold DisconnectBle.scan_and_disconnect_devices, discover.
  unfold bind at 1 2 3. unfold print at 1, emit, lift. simpl. rewrite Hdisc.
  unfold ret.
  destruct devices as [|d0 devices].
  - eexists. split; [reflexivity|]. split; [reflexivity|].
    intros [|? ?] ? ? H; discriminate H.
  - unfold bind, print at 1. simpl.
    destruct (for_each_visit env (d0 :: devices) Hconn
                {| stdout := ["Scanning for BLE devices...";
                              nl ++ "Found "
                              ++ str_of_len (List.length (d0 :: devices))
                              ++ " device(s):" ++ nl];
                   trace := [Discover] |})
      as (st' & Hrun & Hatt & _ & Hcause).
    exists st'. split; [exact Hrun|]. split; [exact Hatt|exact Hcause].
Qed.

Lemma neighbourhood_recoverable : connection_faults_recoverable neighbourhood.
Proof.
  intros h a. unfold neighbourhood, picky. simpl.
  destruct (String.eqb a "BB"); [reflexivity|].
  destruct (String.eqb a "CC"); simpl; repeat constructor.
Defined.

Lemma C4_bulk_pass_continues_after_failure_witness :
  exists st',
    DisconnectBle.scan_and_disconnect_devices neighbourhood initial
    = (Return tt, st')
    /\ attempts (trace st') = ["BB"; "CC"; "AA"]
    /\ In (skipping "refused") (stdout st')
    /\ In (skipping "Not connected") (stdout st').
Proof.
  destruct (C4_bulk_pass_continues_after_failure neighbourhood
              [dev "BB"; dev "CC"; dev "AA"] neighbourhood_recoverable eq_refl)
    as (st' & Hrun & Hatt & Hcause).
  exists st'. split; [exact Hrun|]. split; [exact Hatt|]. split.
  - destruct (Hcause [] (dev "BB") [dev "CC"; dev "AA"] eq_refl)
      as (st_d & Hb & Hd).
    injection Hb as <-. eapply Hd. reflexivity.
  - destruct (Hcause [dev "BB"] (dev "CC") [dev "AA"] eq_refl)
      as (st_d & Hb & Hd).
    vm_compute in Hb. injection Hb as <-. eapply Hd. reflexivity.
Defined.

(* ================================================================== *)
(** ** More on the collected set *)

Lemma dict_get_None {V} (d : dict V) (k : string) :
  dict_get d k = None <-> ~ In k (keys d).
Proof.
  induction d as [|[k' v'] d IH]; simpl; [tauto|].
  destruct (String.eqb_spec k' k) as [->|Hne].
  - split; [discriminate|tauto].
  - rewrite IH. tauto.
Qed.

Lemma keys_fold_collect (events : list (BLEDevice * AdvertisementData)) :
  forall (s : dict info) (a : string),
    In a (keys (fold_left (fun s ev => collect_callback (fst ev) (snd ev) s)
                  events s))
    <-> In a (keys s) \/ exists ev, In ev events /\ dev_address (fst ev) = a.
Proof.
  induction events as [|ev events IH]; intros s a; simpl.
  - split; [tauto|]. intros [H|(ev & [] & _)]. exact H.
  - rewrite IH. unfold collect_callback. rewrite keys_dict_set. split.
    + intros [[->|H]|(ev' & Hin & Heq)]; eauto.
    + intros [H|(ev' & [<-|Hin] & Heq)]; eauto.
Qed.

(** X1: the collected set holds exactly the addresses that advertised
    during the window, each once; looking up an address that never
    advertised finds nothing. *)
Theorem collect_holds_the_advertised_addresses :
  forall (events : list (BLEDevice * AdvertisementData)) (a : string),
    (In a (keys (collect events))
     <-> exists ev, In ev events /\ dev_address (fst ev) = a)
    /\ (dict_get (collect events) a = None
        <-> forall ev, In ev events -> dev_address (fst ev) <> a)
    /\ NoDup (keys (collect events))
    /\ (List.length (collect events) <= List.length events)%nat.
Proof.
  intros events a.
  assert (Hk : In a (keys (collect events))
               <-> exists ev, In ev events /\ dev_address (fst ev) = a).
  { unfold collect. rewrite keys_fold_collect. simpl. tauto. }
  split; [exact Hk|]. split; [|split].
  - rewrite dict_get_None, Hk. split.
    + intros Hn ev Hin Heq. apply Hn. now exists ev.
    + intros Hn (ev & Hin & Heq). now apply (Hn ev).
  - apply NoDup_keys_collect.
  - assert (Hincl : incl (keys (collect events))
                      (map (fun ev => dev_address (fst ev)) events)).
    { intros k Hin. unfold collect in Hin. apply keys_fold_collect in Hin.
      destruct Hin as [[]|(ev & Hin & <-)].
      apply in_map_iff. now exists ev. }
    pose proof (NoDup_incl_length (NoDup_keys_collect events) Hincl) as Hlen.
    unfold keys in Hlen. now rewrite !length_map in Hlen.
Qed.

Lemma keys_dict_set_add_key {V} (d : dict V) (k : string) (v : V) :
  keys (dict_set d k v) = add_key (keys d) k.
Proof.
  unfold add_key. induction d as [|[k' v'] d IH]; simpl; [reflexivity|].
  rewrite (String.eqb_sym k k').
  destruct (String.eqb_spec k' k) as [->|Hne]; simpl; [reflexivity|].
  rewrite IH. now destruct (existsb (String.eqb k) (keys d)).
Qed.

(** X2: the collected set keeps the devices in the order in which they
    were first heard; a later advertisement of a known device replaces
    its record without moving it. *)
Theorem collect_keeps_first_seen_order :
  forall (events : list (BLEDevice * AdvertisementData)),
    keys (collect events)
    = first_seen (map (fun ev => dev_address (fst ev)) events).
Proof.
  intros events. unfold collect, first_seen.
  change (@nil string) with (keys (@nil (string * info))).
  generalize (@nil (string * info)).
  induction events as [|ev events IH]; intros s; simpl; [reflexivity|].
  rewrite IH. unfold collect_callback. now rewrite keys_dict_set_add_key.
Qed.

Example first_seen_order_sample :
  keys (collect [(dev "AA", adv (-40)); (dev "BB", adv (-55));
                 (dev "AA", adv (-70))])
  = ["AA"; "BB"].
Proof. reflexivity. Qed.

(* ================================================================== *)
(** ** More on the locator *)

Lemma locate_fold_none (address : string)
    (events : list (BLEDevice * AdvertisementData)) :
  (forall ev, In ev events -> from_address address ev = false) ->
  forall s : found,
    fold_left (fun s ev => detection_callback address (fst ev) (snd ev) s)
      events s = s.
Proof.
  induction events as [|ev events IH]; intros Hev s; simpl; [reflexivity|].
  rewrite IH by (intros ev' Hin; apply Hev; now right).
  unfold detection_callback. specialize (Hev ev (or_introl eq_refl)).
  unfold from_address in Hev. now rewrite Hev.
Qed.

Lemma locate_fold_found (address : string)
    (events : list (BLEDevice * AdvertisementData)) :
  forall s : found,
    fst s <> None ->
    fst (fold_left (fun s ev => detection_callback address (fst ev) (snd ev) s)
           events s) <> None.
Proof.
  induction events as [|ev events IH]; intros s Hs; simpl; [assumption|].
  apply IH. unfold detection_callback.
  destruct (String.eqb _ _); [discriminate|assumption].
Qed.

Lemma locate_fold_not_found (address : string)
    (events : list (BLEDevice * AdvertisementData)) :
  forall s : found,
    fst (fold_left (fun s ev => detection_callback address (fst ev) (snd ev) s)
           events s) = None ->
    forall ev, In ev events -> from_address address ev = false.
Proof.
  induction events as [|ev events IH]; intros s Hs ev' Hin; [destruct Hin|].
  simpl in Hs. destruct (from_address address ev) eqn:Hev.
  - exfalso. revert Hs. unfold detection_callback at 2.
    unfold from_address in Hev. rewrite Hev.
    apply locate_fold_found. discriminate.
  - destruct Hin as [<-|Hin]; [exact Hev|]. now apply (IH _ Hs).
Qed.

(** X3: the locator keeps the last advertisement whose address equals
    the requested one up to case, device and advertisement data
    together, and keeps nothing when no advertisement matches. *)
Theorem locate_keeps_the_last_match :
  forall (address : string) (events : list (BLEDevice * AdvertisementData)),
    (forall earlier d ad later,
        events = (earlier ++ (d, ad) :: later)%list ->
        from_address address (d, ad) = true ->
        (forall ev, In ev later -> from_address address ev = false) ->
        locate address events = (Some d, Some ad))
    /\ ((forall ev, In ev events -> from_address address ev = false)
        <-> locate address events = (None, None)).
Proof.
  intros address events. split.
  - intros earlier d ad later -> Hd Hlater. unfold locate.
    rewrite fold_left_app. simpl. rewrite locate_fold_none by assumption.
    unfold detection_callback. unfold from_address in Hd. simpl in Hd.
    now rewrite Hd.
  - split.
    + intros Hnone. unfold locate. now apply locate_fold_none.
    + intros Hs. apply (locate_fold_not_found address events (None, None)).
      unfold locate in Hs. now rewrite Hs.
Qed.

Lemma locate_keeps_the_last_match_witness :
  locate "aa:01"
    [(dev "AA:01", adv (-40)); (dev "BB:02", adv (-55)); (dev "Aa:01", adv (-70))]
  = (Some (dev "Aa:01"), Some (adv (-70))).
Proof.
  apply (locate_keeps_the_last_match "aa:01" _)
    with (earlier := [(dev "AA:01", adv (-40)); (dev "BB:02", adv (-55))])
         (later := []).
  - reflexivity.
  - reflexivity.
  - intros ev [].
Defined.

(* ================================================================== *)
(** ** More on the filter *)

Lemma filter_length_mono {A} (f g : A -> bool) (l : list A) :
  (forall x, f x = true -> g x = true) ->
  (List.length (filter f l) <= List.length (filter g l))%nat.
Proof.
  intros H. induction l as [|x l IH]; simpl; [lia|].
  destruct (f x) eqn:Hf.
  - rewrite (H x Hf). simpl. lia.
  - destruct (g x); simpl; lia.
Qed.

Lemma filter_all {A} (f : A -> bool) (l : list A) :
  (forall x, In x l -> f x = true) -> filter f l = l.
Proof.
  induction l as [|x l IH]; simpl; intros H; [reflexivity|].
  rewrite (H x) by now left. f_equal. apply IH. intros y Hy. apply H. now right.
Qed.

(** X4: raising the threshold never brings a device into the report:
    what passes a higher threshold passes every lower one, so the
    report can only shrink; what is kept is again a dictionary, in the
    order of the collected set; and a threshold below every recorded
    RSSI keeps the whole set. *)
Theorem filter_shrinks_as_threshold_rises :
  forall (d : dict info) (low high : Z),
    NoDup (keys d) -> low <= high ->
    (forall e, In e (filter_devices high d) -> In e (filter_devices low d))
    /\ (List.length (filter_devices high d)
        <= List.length (filter_devices low d) <= List.length d)%nat
    /\ NoDup (keys (filter_devices low d))
    /\ ((forall a i, In (a, i) d -> info_rssi i > low) ->
        filter_devices low d = d).
Proof.
  intros d low high Hd Hle. unfold filter_devices.
  rewrite !dict_comprehension_filter by assumption.
  split; [|split; [|split]].
  - intros e. rewrite !filter_In. intros [Hin Hr]. split; [exact Hin|].
    rewrite Z.gtb_ltb, Z.ltb_lt in *. lia.
  - split.
    + apply filter_length_mono. intros x. rewrite !Z.gtb_ltb, !Z.ltb_lt. lia.
    + apply List.filter_length_le.
  - unfold keys. clear Hle. induction d as [|[a i] d IH]; simpl; [constructor|].
    inversion Hd as [|? ? Hnotin Hd']; subst.
    destruct (info_rssi i >? low); simpl; [constructor|]; auto.
    intros Hin. apply Hnotin. apply in_map_iff in Hin.
    destruct Hin as (x & <- & Hx). apply filter_In in Hx.
    apply in_map. tauto.
  - intros Hall. apply filter_all. intros [a i] Hin. simpl.
    rewrite Z.gtb_ltb, Z.ltb_lt. specialize (Hall a i Hin). lia.
Qed.

Lemma filter_shrinks_as_threshold_rises_witness :
  let d := collect [(dev "AA", adv (-60)); (dev "BB", adv (-75));
                    (dev "CC", adv (-90))] in
  (List.length (filter_devices (-70) d) <= List.length (filter_devices (-80) d)
   <= List.length d)%nat
  /\ filter_devices (-95) d = d.
Proof.
  intros d.
  destruct (filter_shrinks_as_threshold_rises d (-80) (-70)) as (_ & Hlen & _).
  - apply NoDup_keys_collect.
  - lia.
  - split; [exact Hlen|].
    destruct (filter_shrinks_as_threshold_rises d (-95) (-95)) as (_ & _ & _ & Hall).
    + apply NoDup_keys_collect.
    + lia.
    + apply Hall. intros a i. vm_compute.
      intros [[= <- <-]|[[= <- <-]|[[= <- <-]|[]]]]; reflexivity.
Defined.

(* ================================================================== *)
(** ** Connections attempted by the scanner program *)

Lemma no_attempt_app (a b : list event) :
  no_attempt a -> no_attempt b -> no_attempt (a ++ b).
Proof. unfold no_attempt. intros Ha Hb. now rewrite attempts_app, Ha, Hb. Qed.

Lemma acts_prefix {A B} (L0 L1 : list event -> Prop) (E : exn -> Prop)
    (c : M A) (k : A -> M B) :
  (forall e, L0 e -> L1 e) ->
  (forall e1 e2, L0 e1 -> L1 e2 -> L1 (e1 ++ e2)%list) ->
  acts L0 E c -> (forall x, acts L1 E (k x)) -> acts L1 E (bind c k).
Proof.
  intros H0 H1 Hc Hk. pose proof (acts_seq L0 L1 E c k Hc Hk) as H.
  revert H. apply acts_weaken; [|auto].
  intros evs [He|(e1 & e2 & -> & He1 & He2)]; auto.
Qed.

Lemma acts_silent_then {A B} (L : list event -> Prop) (E : exn -> Prop)
    (c : M A) (k : A -> M B) :
  acts quiet no_exn c -> (forall x, acts L E (k x)) -> acts L E (bind c k).
Proof.
  intros Hc Hk st. destruct (Hc st) as (out & evs & r & Heq & -> & He).
  unfold bind. rewrite Heq. destruct r as [x|e]; [|destruct (He e eq_refl)].
  destruct (Hk x {| stdout := stdout st ++ out; trace := trace st ++ [] |})
    as (out' & evs' & r' & Heq' & Hl & He').
  simpl in Heq'. exists (out ++ out')%list, evs', r'.
  rewrite Heq', !app_nil_r, app_assoc. now repeat split.
Qed.

Lemma at_most_one_attempt_window (a : string) (evs : list event) :
  connection_window a evs -> at_most_one_attempt a evs.
Proof. intros H. right. now apply connection_window_attempts. Qed.

Lemma at_most_one_attempt_after (a : string) (e1 e2 : list event) :
  no_attempt e1 -> at_most_one_attempt a e2 -> at_most_one_attempt a (e1 ++ e2).
Proof.
  unfold no_attempt, at_most_one_attempt. intros H1 H2.
  now rewrite attempts_app, H1.
Qed.

Lemma acts_emit_in (L : list event -> Prop) (E : exn -> Prop) (e : event) :
  L [e] -> acts L E (emit e).
Proof.
  intros HL. apply (acts_weaken (eq [e]) L E E);
    [now intros evs <-|auto|apply acts_emit].
Qed.

(** [describe_device] for one address: only the window of that address
    matters. *)
Lemma acts_describe_device_at (L : list event -> Prop) (E E' : exn -> Prop)
    (env : Env) (a : string) (s : found) :
  L [] -> (forall evs, connection_window a evs -> L evs) ->
  connection_faults E env ->
  (forall e, E e -> recoverable e = false -> E' e) ->
  acts L E' (describe_device env a s).
Proof.
  intros Hnil Hw Hconn HE. unfold describe_device.
  destruct (fst s) as [d|]; [|apply (acts_quiet L Hnil), acts_print].
  do 5 apply acts_after_print.
  apply acts_quiet_then; [assumption| |intros _].
  - destruct (snd s); [apply acts_print_advertisement|apply acts_ret].
  - apply (acts_weaken (connection_window a) L E' E'); [exact Hw|auto|].
    now apply (acts_attempt_connection E).
Qed.

(** X5: the bulk scan never attempts a connection, and the detail
    lookup attempts at most one, to the address as it was typed; this
    holds whatever the radio does. *)
Theorem scanner_connects_at_most_once :
  forall (env : Env),
    (forall scan_time dbm_max,
        attempts (trace (snd (scan_ble_devices env scan_time dbm_max initial)))
        = [])
    /\ (forall address,
           attempts (trace (snd (get_device_info env address initial))) = []
           \/ attempts (trace (snd (get_device_info env address initial)))
              = [address]).
Proof.
  intros env. split.
  - intros t d.
    apply (acts_initial no_attempt any_exn (scan_ble_devices env t d)).
    apply acts_scan_ble_devices; try reflexivity. apply no_attempt_app.
  - intros a.
    apply (acts_initial (at_most_one_attempt a) any_exn (get_device_info env a)).
    unfold get_device_info. apply acts_after_print.
    apply (acts_try_except _ any_exn); [|intros msg; apply acts_print|auto].
    apply acts_after_print.
    apply (acts_prefix no_attempt); [now left|apply at_most_one_attempt_after| |].
    { apply acts_scanner_start; reflexivity. }
    intros _.
    apply (acts_prefix no_attempt); [now left|apply at_most_one_attempt_after| |].
    { apply acts_asyncio_sleep; try reflexivity. apply no_attempt_app. }
    intros s.
    apply (acts_prefix no_attempt); [now left|apply at_most_one_attempt_after| |].
    { apply acts_scanner_stop; reflexivity. }
    intros _.
    apply (acts_describe_device_at (at_most_one_attempt a) any_exn);
      [now left|apply at_most_one_attempt_window|apply connection_faults_any|auto].
Qed.

(* ================================================================== *)
(** ** The scan window *)



(* ================================================================== *)
(** ** The detail lookup *)

Lemma try_except_after_print {A} (s : string) (k : unit -> M A)
    (h : string -> M A) (st : state) :
  try_except_Exception (bind (print s) k) h st
  = try_except_Exception (k tt) h
      {| stdout := stdout st ++ [s]; trace := trace st |}.
Proof. reflexivity. Qed.

(** X7: when scanning works and no advertisement comes from the
    requested address, up to case, the detail lookup says so, attempts
    no connection and returns normally, so that the process exits with
    status 0. *)
Theorem device_not_found_is_reported :
  forall (every_option : bool) (env : Env) (c : ascii) (s : string),
    let address := String c s in
    scan_succeeds env ->
    (forall ev, In ev (advertisements env) -> from_address address ev = false) ->
    run every_option [Address address] env
    = (0, {| stdout := ["Getting detailed information for device: " ++ address;
                        "Scanning for device...";
                        "Device with address " ++ address
                        ++ " not found during scan."];
             trace := [ScannerStart; Sleep 10; ScannerStop] |}).
Proof.
  intros v env c s address Hscan Hnone. subst address.
  rewrite (run_dispatch v _ env
             {| address := Some (String c s); scan_time := 5; dbm_max := -80 |})
    by reflexivity.
  change (dispatch env _) with (get_device_info env (String c s)).
  rewrite get_device_info_run by assumption.
  unfold locate. rewrite locate_fold_none by assumption. reflexivity.
Qed.

Lemma device_not_found_is_reported_witness :
  run true [Address "dd:04"] neighbourhood
  = (0, {| stdout := ["Getting detailed information for device: dd:04";
                      "Scanning for device...";
                      "Device with address dd:04 not found during scan."];
           trace := [ScannerStart; Sleep 10; ScannerStop] |}).
Proof.
  apply (device_not_found_is_reported true neighbourhood "d" "d:04").
  - repeat split.
  - intros ev [<-|[<-|[<-|[]]]]; reflexivity.
Defined.

(** X8: when scanning works and the device is heard, the detail lookup
    prints the name and the address the device advertised, then makes
    exactly one connection attempt, to the address as it was typed, and
    releases the connection if it was obtained. *)
Theorem device_found_is_described_then_connected :
  forall (env : Env) (address : string) (st : state)
         (d : BLEDevice) (ad : AdvertisementData),
    scan_succeeds env ->
    locate address (advertisements env) = (Some d, Some ad) ->
    exists out evs r,
      get_device_info env address st
      = (r, {| stdout := (stdout st
                          ++ ["Getting detailed information for device: "
                              ++ address;
                              "Scanning for device...";
                              nl ++ "=== BASIC DEVICE INFORMATION ===";
                              "Name: " ++ str_or (dev_name d) "Unknown";
                              "Address: " ++ dev_address d;
                              "Details: " ++ dev_details d;
                              nl ++ "=== ADVERTISEMENT DATA ==="])
                         ++ out;
               trace := (trace st ++ [ScannerStart; Sleep 10; ScannerStop])
                        ++ evs |})
      /\ connection_window address evs.
Proof.
  intros env a st d ad Hscan Hloc.
  rewrite get_device_info_run by assumption. rewrite Hloc.
  unfold describe_device. cbv beta iota. unfold fst, snd.
  rewrite !try_except_after_print. cbv beta. cbn [stdout trace].
  match goal with
  | |- context [try_except_Exception ?b ?h ?s] =>
      assert (Hrest : acts (connection_window a) any_exn
                        (try_except_Exception b h));
      [|destruct (Hrest s) as (out & evs & r & Heq & Hw & _)]
  end.
  { apply (acts_try_except _ any_exn); [|intros msg; apply acts_print|auto].
    apply acts_silent_then; [apply acts_print_advertisement|intros _].
    apply (acts_attempt_connection any_exn); [apply connection_faults_any|auto]. }
  exists out, evs, r. split; [|exact Hw].
  cbn [stdout trace] in Heq. rewrite Heq. rewrite <- !app_assoc. reflexivity.
Qed.

Lemma device_found_is_described_then_connected_witness :
  exists out evs r,
    get_device_info neighbourhood "cc" initial
    = (r, {| stdout := ["Getting detailed information for device: cc";
                        "Scanning for device...";
                        nl ++ "=== BASIC DEVICE INFORMATION ===";
                        "Name: Unknown"; "Address: CC"; "Details: ";
                        nl ++ "=== ADVERTISEMENT DATA ==="]
                       ++ out;
             trace := [ScannerStart; Sleep 10; ScannerStop] ++ evs |})
    /\ connection_window "cc" evs.
Proof.
  apply (device_found_is_described_then_connected neighbourhood "cc" initial
           (dev "CC") (adv (-70))).
  - repeat split.
  - reflexivity.
Defined.



(* ================================================================== *)
(** ** The command line *)

Lemma parse_from_group (v : bool) (argv : list option_arg) :
  forall (seen : option dest) (ns args : Namespace),
    parse_from v seen ns argv = Return args ->
    match seen with
    | None => ns = defaults
    | Some dest_address => scan_time ns = 5 /\ dbm_max ns = -80
    | Some dest_scan_time => address ns = None /\ dbm_max ns = -80
    | Some dest_dbm_max => address ns = None /\ scan_time ns = 5
    end ->
    (scan_time args = 5 /\ dbm_max args = -80)
    \/ (address args = None /\ dbm_max args = -80)
    \/ (address args = None /\ scan_time args = 5).
Proof.
  induction argv as [|a argv IH]; intros seen ns args; simpl.
  - intros [= <-]. destruct seen as [[]|]; [tauto..|]. intros ->. now left.
  - destruct (counts v a) eqn:Hc.
    + destruct seen as [d|].
      * destruct (dest_eqb d (dest_of a)) eqn:Hd; [|discriminate].
        intros Hp Hinv. apply (IH _ _ _ Hp).
        destruct d, a; try discriminate Hd; simpl; tauto.
      * intros Hp ->. apply (IH _ _ _ Hp). destruct a; simpl; auto.
    + destruct a as [x|t|x]; try discriminate Hc. simpl in Hc.
      apply orb_false_elim in Hc. destruct Hc as [_ Ht].
      apply negb_false_iff, Z.eqb_eq in Ht. subst t.
      intros Hp Hinv. apply (IH _ _ _ Hp).
      destruct seen as [[]|]; simpl; try tauto. now subst ns.
Qed.

(** X10: a command line that the parser accepts sets at most one of the
    three arguments away from its default: with an address, the scan
    time is 5 and the threshold -80; with another scan time or another
    threshold, there is no address and the other one is at its
    default. *)
Theorem accepted_command_line_sets_one_argument :
  forall (every_option : bool) (argv : list option_arg) (args : Namespace),
    parse_args every_option argv = Return args ->
    (address args <> None -> scan_time args = 5 /\ dbm_max args = -80)
    /\ (scan_time args <> 5 -> address args = None /\ dbm_max args = -80)
    /\ (dbm_max args <> -80 -> address args = None /\ scan_time args = 5).
Proof.
  intros v argv args Hp.
  pose proof (parse_from_group v argv None defaults args Hp eq_refl) as H.
  split; [|split]; intros Hne; destruct H as [[? ?]|[[? ?]|[? ?]]];
    try (split; assumption); contradiction.
Qed.

Lemma accepted_command_line_sets_one_argument_witness :
  parse_args false [ScanTime 5; Address "AA"; Address "BB"]
  = Return {| address := Some "BB"; scan_time := 5; dbm_max := -80 |}
  /\ scan_time {| address := Some "BB"; scan_time := 5; dbm_max := -80 |} = 5.
Proof.
  split; [reflexivity|].
  destruct (accepted_command_line_sets_one_argument false
              [ScanTime 5; Address "AA"; Address "BB"] _ eq_refl) as (Ha & _).
  apply Ha. discriminate.
Defined.

Lemma parse_from_raises (v : bool) (argv : list option_arg) :
  forall (seen : option dest) (ns : Namespace) (e : exn),
    parse_from v seen ns argv = Raise e -> e = SystemExit 2.
Proof.
  induction argv as [|a argv IH]; intros seen ns e; simpl; [discriminate|].
  destruct (counts v a); [|apply IH].
  destruct seen as [d|]; [|apply IH].
  destruct (dest_eqb d (dest_of a)); [apply IH|now intros [= <-]].
Qed.

(** X11: when the parser refuses the command line, the process exits
    with status 2 and has neither printed anything nor touched the
    radio. *)
Theorem refused_command_line_does_nothing :
  forall (every_option : bool) (argv : list option_arg) (env : Env) (e : exn),
    parse_args every_option argv = Raise e ->
    e = SystemExit 2 /\ run every_option argv env = (2, initial).
Proof.
  intros v argv env e Hp.
  pose proof (parse_from_raises v argv None defaults e Hp) as ->.
  split; [reflexivity|]. unfold run, main, bind, lift. now rewrite Hp.
Qed.

Lemma refused_command_line_does_nothing_witness :
  run true [Address "AA"; ScanTime 10] neighbourhood = (2, initial).
Proof.
  apply (refused_command_line_does_nothing true [Address "AA"; ScanTime 10]
           neighbourhood (SystemExit 2)).
  reflexivity.
Defined.

Lemma store_store_same (a b : option_arg) (ns : Namespace) :
  dest_of b = dest_of a -> store a (store b ns) = store a ns.
Proof. destruct a, b; simpl; intros H; try discriminate H; reflexivity. Qed.

Lemma parse_from_same_dest (v : bool) (a : option_arg) (argv : list option_arg) :
  same_dest (dest_of a) argv ->
  forall (seen : option dest) (ns : Namespace),
    seen = None \/ seen = Some (dest_of a) ->
    store a ns = store a defaults ->
    parse_from v seen ns (argv ++ [a]) = Return (store a defaults).
Proof.
  assert (Hd : dest_eqb (dest_of a) (dest_of a) = true) by now destruct a.
  induction 1 as [|b argv Hb Hargv IH]; intros seen ns Hseen Hns; simpl.
  - destruct (counts v a); [|now rewrite Hns].
    destruct Hseen as [-> | ->]; [|rewrite Hd]; now rewrite Hns.
  - assert (Hns' : store a (store b ns) = store a defaults)
      by now rewrite store_store_same.
    destruct (counts v b); [|now apply IH].
    destruct Hseen as [-> | ->].
    + apply IH; [right; now rewrite Hb|assumption].
    + rewrite Hb, Hd. apply IH; [now right|assumption].
Qed.

(** X12: an option may be repeated; the last value is the one kept, and
    the other arguments keep their defaults. *)
Theorem repeated_option_keeps_last_value :
  forall (every_option : bool) (a : option_arg) (argv : list option_arg),
    same_dest (dest_of a) argv ->
    parse_args every_option (argv ++ [a]) = Return (store a defaults).
Proof.
  intros v a argv Hsame. unfold parse_args.
  apply parse_from_same_dest; [assumption|now left|reflexivity].
Qed.

Lemma repeated_option_keeps_last_value_witness :
  parse_args true [DbmMax (-60); DbmMax (-90); DbmMax (-70)]
  = Return {| address := None; scan_time := 5; dbm_max := -70 |}.
Proof.
  apply (repeated_option_keeps_last_value true (DbmMax (-70))
           [DbmMax (-60); DbmMax (-90)]).
  repeat constructor.
Defined.

(** X13: the scan time is not validated: every integer, zero and
    negative ones included, is accepted and handed to the sleep as it
    is; when scanning works the process then exits with status 0. *)
Theorem any_scan_time_is_passed_to_sleep :
  forall (every_option : bool) (env : Env) (t : Z),
    scan_succeeds env ->
    parse_args every_option [ScanTime t]
    = Return {| address := None; scan_time := t; dbm_max := -80 |}
    /\ fst (run every_option [ScanTime t] env) = 0
    /\ trace (snd (run every_option [ScanTime t] env))
       = [ScannerStart; Sleep t; ScannerStop].
Proof.
  intros v env t Hscan.
  assert (Hp : parse_args v [ScanTime t]
               = Return {| address := None; scan_time := t; dbm_max := -80 |}).
  { unfold parse_args. simpl. now destruct (v || negb (t =? 5)). }
  split; [exact Hp|].
  rewrite (run_dispatch _ _ _ _ Hp).
  change (dispatch env _) with (scan_ble_devices env t (-80)).
  rewrite scan_ble_devices_run by assumption.
  match goal with
  | |- context [report_devices ?d ?c ?s] =>
      destruct (acts_report_devices no_exn d c s)
        as (out & evs & r & Heq & -> & He)
  end.
  rewrite Heq. destruct r as [[]|e]; [|destruct (He e eq_refl)].
  split; reflexivity.
Qed.

Lemma any_scan_time_is_passed_to_sleep_witness :
  fst (run true [ScanTime (-3)] neighbourhood) = 0
  /\ trace (snd (run true [ScanTime (-3)] neighbourhood))
     = [ScannerStart; Sleep (-3); ScannerStop].
Proof.
  apply (any_scan_time_is_passed_to_sleep true neighbourhood (-3)).
  repeat split.
Defined.

(* ================================================================== *)
(** ** The report of the bulk scan *)

Lemma print_device_lines (a : string) (i : info) (st : state) :
  exists out,
    print_device (a, i) st
    = (Return tt, {| stdout := stdout st ++ out; trace := trace st |})
    /\ In ("Address: " ++ a) out
    /\ In ("RSSI: " ++ str_of_int (info_rssi i) ++ " dBm") out.
Proof.
  unfold print_device.
  destruct (service_uuids (advertisement_data i)),
           (manufacturer_data (advertisement_data i));
    unfold bind, print, ret; cbn [stdout trace]; rewrite <- ?app_assoc;
    cbn [app]; eexists; (split; [reflexivity|]);
    (split; [right; left; reflexivity|right; right; left; reflexivity]).
Qed.

Lemma for_each_print_device (l : list (string * info)) :
  forall st, exists out,
    for_each l print_device st
    = (Return tt, {| stdout := stdout st ++ out; trace := trace st |})
    /\ (forall a i, In (a, i) l ->
          In ("Address: " ++ a) out
          /\ In ("RSSI: " ++ str_of_int (info_rssi i) ++ " dBm") out).
Proof.
  induction l as [|[a i] l IH]; intros st.
  - exists []. rewrite app_nil_r. destruct st. split; [reflexivity|].
    intros ? ? [].
  - destruct (print_device_lines a i st) as (out1 & H1 & Ha & Hr).
    destruct (IH {| stdout := stdout st ++ out1; trace := trace st |})
      as (out2 & H2 & Hall).
    exists (out1 ++ out2)%list.
    change (for_each ((a, i) :: l) print_device)
      with (bind (print_device (a, i)) (fun _ => for_each l print_device)).
    unfold bind. rewrite H1, H2.
    cbn [stdout trace]. rewrite app_assoc. split; [reflexivity|].
    intros a' i' [[= <- <-]|Hin].
    + split; apply in_or_app; now left.
    + destruct (Hall a' i' Hin). split; apply in_or_app; now right.
Qed.

(** X14: when scanning works and some device is above the threshold,
    the bulk scan prints the number of devices above the threshold,
    then a block of lines in which the address and the RSSI of each of
    them appear, then "Scan complete.", and returns normally. *)
Theorem report_lists_every_device_above_threshold :
  forall (env : Env) (scan_time dbm_max : Z),
    scan_succeeds env ->
    let reported := filter_devices dbm_max (collect (advertisements env)) in
    reported <> [] ->
    exists blocks,
      scan_ble_devices env scan_time dbm_max initial
      = (Return tt,
         {| stdout := ["Starting BLE scan for " ++ str_of_int scan_time
                       ++ " seconds...";
                       nl ++ "Found " ++ str_of_len (List.length reported)
                       ++ " device(s):";
                       str_mul "-" 80]
                      ++ blocks ++ ["Scan complete."];
            trace := [ScannerStart; Sleep scan_time; ScannerStop] |})
      /\ (forall a i, In (a, i) reported ->
            In ("Address: " ++ a) blocks
            /\ In ("RSSI: " ++ str_of_int (info_rssi i) ++ " dBm") blocks).
Proof.
  intros env t dbm Hscan reported Hne. subst reported.
  rewrite scan_ble_devices_run by assumption. unfold report_devices.
  remember (collect (advertisements env)) as d eqn:Hd.
  destruct d as [|e d]; [now elim Hne|]. rewrite Hd in *. clear Hd.
  remember (filter_devices dbm (collect (advertisements env))) as reported
    eqn:Hr.
  destruct reported as [|r rs]; [congruence|].
  rewrite Hr in *. clear Hr. set (reported := filter_devices dbm _).
  - unfold bind at 1 2. unfold print at 1 2.
    cbn [stdout trace]. unfold bind.
    match goal with
    | |- context [for_each reported print_device ?s] =>
        destruct (for_each_print_device reported s) as (blocks & Hrun & Hall)
    end.
    exists blocks. rewrite Hrun. unfold print. cbn [stdout trace initial].
    split; [|exact Hall].
    rewrite <- !app_assoc. reflexivity.
Qed.

Lemma report_lists_every_device_above_threshold_witness :
  exists blocks,
    scan_ble_devices neighbourhood 5 (-80) initial
    = (Return tt,
       {| stdout := ["Starting BLE scan for 5 seconds...";
                     nl ++ "Found 2 device(s):"; str_mul "-" 80]
                    ++ blocks ++ ["Scan complete."];
          trace := [ScannerStart; Sleep 5; ScannerStop] |})
    /\ In "Address: AA" blocks /\ In "RSSI: -70 dBm" blocks.
Proof.
  destruct (report_lists_every_device_above_threshold neighbourhood 5 (-80))
    as (blocks & Hrun & Hall).
  - repeat split.
  - discriminate.
  - exists blocks. split; [exact Hrun|]. split.
    + apply (Hall "AA" (record_of (dev "AA") (adv (-60)))). left. reflexivity.
    + apply (Hall "CC" (record_of (dev "CC") (adv (-70)))). right. left.
      reflexivity.
Defined.

(* ================================================================== *)
(** ** Exit status of disconnect_ble.py *)

Lemma scan_and_disconnect_devices_run (env : Env) (st : state) :
  DisconnectBle.scan_and_disconnect_devices env st
  = match discover_result env with
    | Raise e =>
        (Raise e, {| stdout := stdout st ++ ["Scanning for BLE devices..."];
                     trace := trace st ++ [Discover] |})
    | Return [] =>
        (Return tt, {| stdout := stdout st ++ ["Scanning for BLE devices...";
                                               "No BLE devices found"];
                       trace := trace st ++ [Discover] |})
    | Return devices =>
        for_each devices (DisconnectBle.visit env)
          {| stdout := stdout st
                       ++ ["Scanning for BLE devices...";
                           nl ++ "Found " ++ str_of_len (List.length devices)
                           ++ " device(s):" ++ nl];
             trace := trace st ++ [Discover] |}
    end.
Proof.
  unfold DisconnectBle.scan_and_disconnect_devices, discover.
  unfold bind at 1 2 3. unfold print at 1, emit, lift. cbn [stdout trace].
  destruct (discover_result env) as [[|d devices]|e].
  - unfold ret, print. cbn [stdout trace]. now rewrite <- app_assoc.
  - unfold ret, bind, print at 1. cbn [stdout trace]. now rewrite <- app_assoc.
  - reflexivity.
Qed.

(** X15: [disconnect_ble.py] has no handler around the pass.  When the
    discovery fails the exception leaves the program, which exits with
    status 1 without having attempted any connection; when nothing is
    discovered it says so and exits with status 0; and when devices are
    discovered and every connection or enumeration fault is an
    [Exception], it exits with status 0 after one attempt per device. *)
Theorem disconnect_ble_exit_status :
  forall (env : Env),
    (forall msg, discover_result env = Raise (Exception msg) ->
       DisconnectBle.run env
       = (1, {| stdout := ["Scanning for BLE devices..."];
                trace := [Discover] |}))
    /\ (discover_result env = Return [] ->
        DisconnectBle.run env
        = (0, {| stdout := ["Scanning for BLE devices...";
                            "No BLE devices found"];
                 trace := [Discover] |}))
    /\ (forall devices, discover_result env = Return devices ->
          connection_faults_recoverable env ->
          fst (DisconnectBle.run env) = 0
          /\ attempts (trace (snd (DisconnectBle.run env)))
             = map dev_address devices).
Proof.
  intros env. unfold DisconnectBle.run, DisconnectBle.main.
  rewrite scan_and_disconnect_devices_run. split; [|split].
  - intros msg ->. reflexivity.
  - intros ->. reflexivity.
  - intros devices -> Hconn.
    destruct devices as [|d devices]; [split; reflexivity|].
    match goal with
    | |- context [for_each ?l ?f ?s] =>
        destruct (for_each_visit env l Hconn s) as (st' & Hrun & Hatt & _)
    end.
    rewrite Hrun. split; [reflexivity|exact Hatt].
Qed.

Lemma disconnect_ble_exit_status_witness :
  DisconnectBle.run radio_off
  = (1, {| stdout := ["Scanning for BLE devices..."]; trace := [Discover] |})
  /\ DisconnectBle.run (radio [])
     = (0, {| stdout := ["Scanning for BLE devices..."; "No BLE devices found"];
              trace := [Discover] |})
  /\ fst (DisconnectBle.run neighbourhood) = 0.
Proof.
  split; [|split].
  - destruct (disconnect_ble_exit_status radio_off) as (H & _).
    apply (H "Bluetooth device is turned off"). reflexivity.
  - destruct (disconnect_ble_exit_status (radio [])) as (_ & H & _).
    apply H. reflexivity.
  - destruct (disconnect_ble_exit_status neighbourhood) as (_ & _ & H).
    apply (H [dev "BB"; dev "CC"; dev "AA"] eq_refl neighbourhood_recoverable).
Defined.

(* ================================================================== *)
(** ** Case-insensitive lookup *)

Lemma ascii_case_is_ascii (c : ascii) :
  Nat.ltb (nat_of_ascii c) 128 = true ->
  Nat.ltb (nat_of_ascii (ascii_lower c)) 128 = true
  /\ Nat.ltb (nat_of_ascii (ascii_upper c)) 128 = true.
Proof.
  destruct c as [[] [] [] [] [] [] [] []]; intros H;
    try discriminate H; split; reflexivity.
Qed.

(** Folding the case of an ASCII string gives an ASCII string. *)
Lemma is_ascii_case (s : string) :
  is_ascii s = true -> is_ascii (lower s) = true /\ is_ascii (upper s) = true.
Proof.
  induction s as [|c s IH]; simpl; [now split|].
  intros H. apply andb_prop in H. destruct H as [Hc Hs].
  destruct (ascii_case_is_ascii c Hc) as [Hl Hu].
  destruct (IH Hs) as [IHl IHu]. now rewrite Hl, Hu, IHl, IHu.
Qed.

Lemma from_address_lower (a b : string) (ev : BLEDevice * AdvertisementData) :
  lower a = lower b -> from_address a ev = from_address b ev.
Proof. intros H. unfold from_address. now rewrite H. Qed.

Lemma locate_last_match (address : string)
    (earlier later : list (BLEDevice * AdvertisementData))
    (d : BLEDevice) (ad : AdvertisementData) :
  from_address address (d, ad) = true ->
  (forall ev, In ev later -> from_address address ev = false) ->
  locate address (earlier ++ (d, ad) :: later) = (Some d, Some ad).
Proof.
  intros Hd Hlater. unfold locate. rewrite fold_left_app. simpl.
  rewrite locate_fold_none by assumption.
  unfold detection_callback. unfold from_address in Hd. simpl in Hd.
  now rewrite Hd.
Qed.

(** C7: the locator compares identities case-insensitively.  For an
    ASCII address and ASCII device addresses, looking the address up in
    lower case and looking it up in upper case run the same scan and end
    with the same device and advertisement.  A device is found under
    either spelling whatever the case in which it advertises its
    address (all lower case, all upper case or mixed): the record is
    that of its last advertisement, and equals the requested address up
    to case.  When no advertisement matches up to case, both lookups
    find nothing. *)
Theorem C7_locate_case_insensitive :
  forall (env : Env) (address : string) (st : state),
    is_ascii address = true ->
    Forall (fun ev => is_ascii (dev_address (fst ev)) = true)
      (advertisements env) ->
    asyncio_sleep env 10 (detection_callback (lower address)) (None, None) st
    = asyncio_sleep env 10 (detection_callback (upper address)) (None, None) st
    /\ locate (lower address) (advertisements env)
       = locate (upper address) (advertisements env)
    /\ locate address (advertisements env)
       = locate (upper address) (advertisements env)
    /\ (forall d, fst (locate address (advertisements env)) = Some d ->
                  lower (dev_address d) = lower address)
    /\ (forall earlier d ad later,
           advertisements env = (earlier ++ (d, ad) :: later)%list ->
           dev_address d = lower address
           \/ dev_address d = upper address
           \/ lower (dev_address d) = lower address ->
           (forall ev, In ev later -> from_address address ev = false) ->
           locate (lower address) (advertisements env) = (Some d, Some ad)
           /\ locate (upper address) (advertisements env) = (Some d, Some ad))
    /\ ((forall ev, In ev (advertisements env) ->
                    from_address address ev = false) ->
        locate (lower address) (advertisements env) = (None, None)
        /\ locate (upper address) (advertisements env) = (None, None)).
Proof.
  intros env address st _ _.
  assert (Hl : lower (lower address) = lower address) by apply lower_idem.
  assert (Hu : lower (upper address) = lower address) by apply lower_upper.
  assert (Hlu : lower (lower address) = lower (upper address))
    by now rewrite Hl, Hu.
  split; [|split; [|split; [|split; [|split]]]].
  - unfold asyncio_sleep, bind. simpl.
    destruct (check (sleep_raises env) _) as [[[]|e] st']; [|reflexivity].
    pose proof (locate_lower _ _ (advertisements env) Hlu) as HL.
    unfold locate in HL. unfold ret. now rewrite HL.
  - apply locate_lower, Hlu.
  - apply locate_lower. now rewrite Hu.
  - intros d Hd.
    destruct (String.eqb_spec (lower (dev_address d)) (lower address))
      as [Heq|Hne]; [exact Heq|exfalso].
    revert Hd. unfold locate.
    assert (G : forall events (s : found),
               (forall d', fst s = Some d' ->
                           lower (dev_address d') = lower address) ->
               forall d', fst (fold_left
                   (fun s ev => detection_callback address (fst ev) (snd ev) s)
                   events s) = Some d' ->
                          lower (dev_address d') = lower address).
    { induction events as [|ev events IH]; intros s Hs d'; simpl; [apply Hs|].
      apply IH. intros d''. unfold detection_callback.
      destruct (String.eqb_spec (lower (dev_address (fst ev))) (lower address))
        as [Heq|Hne']; simpl.
      - intros [= <-]. exact Heq.
      - apply Hs. }
    intros Hd. apply Hne. apply (G (advertisements env) (None, None));
      [simpl; discriminate|exact Hd].
  - intros earlier d ad later Hev Hd Hlater.
    assert (Hm : from_address address (d, ad) = true).
    { unfold from_address. simpl. apply String.eqb_eq.
      destruct Hd as [-> |[-> |Hd]]; assumption. }
    rewrite Hev. split; apply locate_last_match.
    + now rewrite (from_address_lower _ address) by exact Hl.
    + intros ev Hin.
      rewrite (from_address_lower _ address) by exact Hl. now apply Hlater.
    + now rewrite (from_address_lower _ address) by exact Hu.
    + intros ev Hin.
      rewrite (from_address_lower _ address) by exact Hu. now apply Hlater.
  - intros Hnone. unfold locate. split; apply locate_fold_none; intros ev Hin.
    + rewrite (from_address_lower _ address) by exact Hl. now apply Hnone.
    + rewrite (from_address_lower _ address) by exact Hu. now apply Hnone.
Qed.

Lemma C7_locate_case_insensitive_witness :
  let events := [(dev "AA:0b", adv (-40)); (dev "bb:02", adv (-55));
                 (dev "Aa:0B", adv (-70)); (dev "CC:03", adv (-60))] in
  locate "aa:0b" events = (Some (dev "Aa:0B"), Some (adv (-70)))
  /\ locate "AA:0B" events = (Some (dev "Aa:0B"), Some (adv (-70)))
  /\ locate "dd:04" events = (None, None)
  /\ locate "DD:04" events = (None, None).
Proof.
  intros events.
  destruct (C7_locate_case_insensitive (radio events) "aA:0b" initial)
    as (_ & _ & _ & _ & Hfound & _).
  { reflexivity. }
  { repeat constructor. }
  destruct (C7_locate_case_insensitive (radio events) "dd:04" initial)
    as (_ & _ & _ & _ & _ & Hnone).
  { reflexivity. }
  { repeat constructor. }
  destruct (Hfound [(dev "AA:0b", adv (-40)); (dev "bb:02", adv (-55))]
              (dev "Aa:0B") (adv (-70)) [(dev "CC:03", adv (-60))])
    as [Hlo Hup].
  { reflexivity. }
  { right. right. reflexivity. }
  { intros ev [<-|[]]. reflexivity. }
  destruct Hnone as [Hlo' Hup'].
  { intros ev [<-|[<-|[<-|[<-|[]]]]]; reflexivity. }
  split; [exact Hlo|]. split; [exact Hup|]. split; [exact Hlo'|exact Hup'].
Defined.
